(** * Secret resolution ([prefect.client.secrets.Secret.get])

    A shallow embedding of [src/prefect/client/secrets.py] together with
    the part of the Python runtime the method relies on: dictionaries,
    exceptions, floats and the standard [json] decoder with the limits
    the interpreter puts on it.

    Layout:
    - [Py]      Python values, strings as code-point lists, dictionaries;
    - [Codec]   [bytes.decode] for the encodings [json.loads] selects;
    - [Json]    [json.loads] and [json.dumps] (CPython 3.6 and later);
    - [Secrets] the method [Secret.get] in a small state-and-error monad;
    - the properties of [Secret.get]. *)

From Stdlib Require Import List ZArith NArith Lia Bool String Ascii.
From Stdlib.Strings Require Import Byte.
From Stdlib.Floats Require Import SpecFloat.
Import ListNotations.

Set Warnings "-register-all".

(* ================================================================= *)
(** ** Python values *)

Module Py.

(** A Python [str] is a sequence of Unicode code points. *)
Definition pystr := list N.

(** Literal text: the code points of an ASCII Rocq string. *)
Definition u (s : string) : pystr :=
  List.map N_of_ascii (list_ascii_of_string s).

Fixpoint str_eqb (a b : pystr) : bool :=
  match a, b with
  | [], [] => true
  | x :: a', y :: b' => N.eqb x y && str_eqb a' b'
  | _, _ => false
  end.

(** The values that can sit in [prefect.context], in the configuration
    or come back from a backend.  A float is an IEEE 754 double;
    [PFlow] is an instance of [prefect.core.flow.Flow] (or of a
    subclass); [PObject] is an instance of any other class, with no
    container protocol. *)
Inductive pyval : Type :=
| PNone
| PBool (b : bool)
| PInt (z : Z)
| PFloat (x : spec_float)
| PStr (s : pystr)
| PBytes (b : list byte)
| PByteArray (b : list byte)
| PList (l : list pyval)
| PDict (items : list (pystr * pyval))
| PFlow (name : pystr)
| PObject (cls : pystr).

(** Dictionaries keep insertion order; keys are unique. *)
Definition pydict := list (pystr * pyval).

Fixpoint dict_lookup (d : pydict) (k : pystr) : option pyval :=
  match d with
  | [] => None
  | (k', v) :: d' => if str_eqb k' k then Some v else dict_lookup d' k
  end.

(** [d[k] = v]: an existing key keeps its position. *)
Fixpoint dict_set (d : pydict) (k : pystr) (v : pyval) : pydict :=
  match d with
  | [] => [(k, v)]
  | (k', v') :: d' =>
      if str_eqb k' k then (k', v) :: d' else (k', v') :: dict_set d' k v
  end.

(** [dict(pairs)] *)
Definition dict_of_pairs (pairs : list (pystr * pyval)) : pydict :=
  fold_left (fun d kv => dict_set d (fst kv) (snd kv)) pairs [].

(** The exceptions [Secret.get] can meet.  [OtherError] is an exception
    of a class that is none of the others, given by the name of the
    class and its message. *)
Inductive pyexn : Type :=
| KeyError (key : pystr)
| ValueError (msg : pystr)
| TypeError
| JSONDecodeError
| UnicodeDecodeError
| RecursionError
| ClientError (msg : pystr)
| OtherError (cls msg : pystr).

(** [isinstance(v, prefect.core.flow.Flow)] *)
Definition isinstance_Flow (v : pyval) : bool :=
  match v with PFlow _ => true | _ => false end.

(** [v is True] *)
Definition is_True (v : pyval) : bool :=
  match v with PBool true => true | _ => false end.

End Py.
Import Py.

(* ================================================================= *)
(** ** Decoding byte strings

    [json.loads] turns a [bytes] or [bytearray] argument into text with
    [b.decode(json.detect_encoding(b), 'surrogatepass')].  A byte is
    handled as its value, a number below 256. *)

Module Codec.

Inductive encoding : Type :=
| UTF8 | UTF8_SIG | UTF16 | UTF16_LE | UTF16_BE | UTF32 | UTF32_LE | UTF32_BE.

Definition is_zero (n : N) : bool := N.eqb n 0.

Fixpoint startswith (prefix b : list N) : bool :=
  match prefix, b with
  | [], _ => true
  | p :: prefix', x :: b' => N.eqb p x && startswith prefix' b'
  | _ :: _, [] => false
  end.

(** [json.detect_encoding]: byte-order marks first, then the pattern of
    zero bytes among the first four. *)
Definition detect_encoding (b : list N) : encoding :=
  if startswith [0; 0; 254; 255]%N b || startswith [255; 254; 0; 0]%N b
  then UTF32
  else if startswith [254; 255]%N b || startswith [255; 254]%N b then UTF16
  else if startswith [239; 187; 191]%N b then UTF8_SIG
  else
    match b with
    | b0 :: b1 :: b2 :: b3 :: _ =>
        if is_zero b0 then (if is_zero b1 then UTF32_BE else UTF16_BE)
        else if is_zero b1 then
          (if is_zero b2 && is_zero b3 then UTF32_LE else UTF16_LE)
        else UTF8
    | [b0; b1] =>
        if is_zero b0 then UTF16_BE
        else if is_zero b1 then UTF16_LE
        else UTF8
    | _ => UTF8
    end.

Definition is_cont (b : N) : bool := (128 <=? b)%N && (b <=? 191)%N.

Definition in_range (lo hi n : N) : bool := (lo <=? n)%N && (n <=? hi)%N.

(** UTF-8 with the [surrogatepass] handler: shortest forms only, at most
    U+10FFFF, and the three-byte forms of U+D800..U+DFFF are let through. *)
Fixpoint utf8_decode (b : list N) : option (list N) :=
  match b with
  | [] => Some []
  | b0 :: r0 =>
      if (b0 <? 128)%N then option_map (cons b0) (utf8_decode r0)
      else if in_range 194 223 b0 then
        match r0 with
        | b1 :: r1 =>
            if is_cont b1
            then option_map (cons ((b0 - 192) * 64 + (b1 - 128))%N)
                            (utf8_decode r1)
            else None
        | _ => None
        end
      else if in_range 224 239 b0 then
        match r0 with
        | b1 :: b2 :: r2 =>
            let cp := ((b0 - 224) * 4096 + (b1 - 128) * 64 + (b2 - 128))%N in
            if is_cont b1 && is_cont b2 && (2048 <=? cp)%N
            then option_map (cons cp) (utf8_decode r2)
            else None
        | _ => None
        end
      else if in_range 240 244 b0 then
        match r0 with
        | b1 :: b2 :: b3 :: r3 =>
            let cp := ((b0 - 240) * 262144 + (b1 - 128) * 4096
                       + (b2 - 128) * 64 + (b3 - 128))%N in
            if is_cont b1 && is_cont b2 && is_cont b3
               && in_range 65536 1114111 cp
            then option_map (cons cp) (utf8_decode r3)
            else None
        | _ => None
        end
      else None
  end.

(** The 16-bit units of a byte string; [None] on an odd length. *)
Fixpoint units16 (big_endian : bool) (b : list N) : option (list N) :=
  match b with
  | [] => Some []
  | b0 :: b1 :: r =>
      option_map (cons (if big_endian then b0 * 256 + b1 else b1 * 256 + b0)%N)
                 (units16 big_endian r)
  | _ => None
  end.

Definition is_high_surrogate (c : N) : bool := in_range 55296 56319 c.
Definition is_low_surrogate (c : N) : bool := in_range 56320 57343 c.

Definition join_surrogates (hi lo : N) : N :=
  (65536 + ((hi - 55296) * 1024 + (lo - 56320)))%N.

(** Surrogate pairs are joined; a surrogate on its own is let through. *)
Fixpoint join_units (us : list N) : list N :=
  match us with
  | [] => []
  | h :: r =>
      match r with
      | l :: r' =>
          if is_high_surrogate h && is_low_surrogate l
          then join_surrogates h l :: join_units r'
          else h :: join_units r
      | [] => [h]
      end
  end.

Definition utf16_decode (big_endian : bool) (b : list N) : option (list N) :=
  option_map join_units (units16 big_endian b).

Fixpoint utf32_decode (big_endian : bool) (b : list N) : option (list N) :=
  match b with
  | [] => Some []
  | b0 :: b1 :: b2 :: b3 :: r =>
      let cp := (if big_endian
                 then ((b0 * 256 + b1) * 256 + b2) * 256 + b3
                 else ((b3 * 256 + b2) * 256 + b1) * 256 + b0)%N in
      if (cp <=? 1114111)%N
      then option_map (cons cp) (utf32_decode big_endian r)
      else None
  | _ => None
  end.

(** [b.decode(encoding, 'surrogatepass')]; [None] is [UnicodeDecodeError]. *)
Definition decode (e : encoding) (b : list N) : option (list N) :=
  match e with
  | UTF8 => utf8_decode b
  | UTF8_SIG => utf8_decode (skipn 3 b)
  | UTF16_LE => utf16_decode false b
  | UTF16_BE => utf16_decode true b
  | UTF16 =>
      match b with
      | b0 :: _ :: r => utf16_decode (N.eqb b0 254) r
      | _ => None
      end
  | UTF32_LE => utf32_decode false b
  | UTF32_BE => utf32_decode true b
  | UTF32 =>
      match b with
      | b0 :: _ :: _ :: _ :: r => utf32_decode (N.eqb b0 0) r
      | _ => None
      end
  end.

Definition bytes_decode (b : list byte) : option pystr :=
  let ns := List.map Byte.to_N b in
  decode (detect_encoding ns) ns.

End Codec.

(* ================================================================= *)
(** ** The [json] module

    [json.loads] with the default decoder (strict mode, no hooks) and
    [json.dumps] with its default options, for CPython 3.6 and later,
    with the two limits of the interpreter that reach into them: the
    recursion limit and the cap on the digits of an integer. *)

Module Json.

Local Open Scope N_scope.

(** *** Scanning primitives *)

Definition is_ws (c : N) : bool :=
  (c =? 32) || (c =? 9) || (c =? 10) || (c =? 13).

(** [WHITESPACE.match(s, idx).end()] *)
Fixpoint skip_ws (s : pystr) : pystr :=
  match s with
  | c :: r => if is_ws c then skip_ws r else s
  | [] => []
  end.

(** [s[idx:idx + len(p)] == p], giving what follows. *)
Fixpoint strip_prefix (p s : pystr) : option pystr :=
  match p, s with
  | [], _ => Some s
  | x :: p', y :: s' => if x =? y then strip_prefix p' s' else None
  | _ :: _, [] => None
  end.

Definition is_digit (c : N) : bool := (48 <=? c) && (c <=? 57).

(** The longest run of digits at the front, and the rest. *)
Fixpoint span_digits (s : pystr) : pystr * pystr :=
  match s with
  | c :: r =>
      if is_digit c
      then let (ds, r') := span_digits r in (c :: ds, r')
      else ([], s)
  | [] => ([], [])
  end.

(** *** Strings *)

Definition hexval (c : N) : option N :=
  if is_digit c then Some (c - 48)
  else if (97 <=? c) && (c <=? 102) then Some (c - 87)
  else if (65 <=? c) && (c <=? 70) then Some (c - 55)
  else None.

Definition hex4 (a b c d : N) : option N :=
  match hexval a, hexval b, hexval c, hexval d with
  | Some x, Some y, Some z, Some w => Some (((x * 16 + y) * 16 + z) * 16 + w)
  | _, _, _, _ => None
  end.

(** [BACKSLASH]: the one-letter escapes. *)
Definition unescape (c : N) : option N :=
  if c =? 34 then Some 34          (* quote *)
  else if c =? 92 then Some 92     (* backslash *)
  else if c =? 47 then Some 47     (* slash *)
  else if c =? 98 then Some 8      (* b: backspace *)
  else if c =? 102 then Some 12    (* f: form feed *)
  else if c =? 110 then Some 10    (* n: line feed *)
  else if c =? 114 then Some 13    (* r: carriage return *)
  else if c =? 116 then Some 9     (* t: tab *)
  else None.

(** One more character in front of what the rest of the scan gives. *)
Definition more (c : N) (r : option (pystr * pystr))
  : option (pystr * pystr) :=
  match r with
  | Some (str, rest) => Some (c :: str, rest)
  | None => None
  end.

(** [scanstring(s, end, strict=True)], entered after the opening quote:
    the decoded text and what follows the closing quote. *)
Fixpoint scanstring (s : pystr) : option (pystr * pystr) :=
  match s with
  | [] => None
  | c :: r =>
      if c =? 34 then Some ([], r)
      else if c =? 92 then
        match r with
        | [] => None
        | e :: r1 =>
            if e =? 117 then
              match r1 with
              | h1 :: h2 :: h3 :: h4 :: r2 =>
                  match hex4 h1 h2 h3 h4 with
                  | None => None
                  | Some uni =>
                      if Codec.is_high_surrogate uni then
                        match r2 with
                        | b :: v :: g1 :: g2 :: g3 :: g4 :: r3 =>
                            if (b =? 92) && (v =? 117) then
                              match hex4 g1 g2 g3 g4 with
                              | None => None
                              | Some uni2 =>
                                  if Codec.is_low_surrogate uni2
                                  then more (Codec.join_surrogates uni uni2)
                                            (scanstring r3)
                                  else more uni (scanstring r2)
                              end
                            else more uni (scanstring r2)
                        | _ => more uni (scanstring r2)
                        end
                      else more uni (scanstring r2)
                  end
              | _ => None
              end
            else
              match unescape e with
              | Some c' => more c' (scanstring r1)
              | None => None
              end
        end
      else if c <=? 31 then None
      else more c (scanstring r)
  end.

(** *** Decimal numerals *)

(** The decimal digits of [n], most significant first, put before [acc]. *)
Fixpoint digits_from (fuel : nat) (n : N) (acc : pystr) : pystr :=
  match fuel with
  | O => acc
  | S fuel' =>
      let acc' := (48 + n mod 10) :: acc in
      if n <? 10 then acc' else digits_from fuel' (n / 10) acc'
  end.

Definition str_of_N (n : N) : pystr :=
  digits_from (S (N.to_nat (N.log2 n))) n [].

(** [int.__repr__] *)
Definition str_of_Z (z : Z) : pystr :=
  match z with
  | Zneg p => 45 :: str_of_N (Npos p)
  | _ => str_of_N (Z.to_N z)
  end.

(** *** Numbers

    [NUMBER_RE] has three groups: the integer part (an optional minus
    sign, then a lone zero or a non-zero digit and more digits), an
    optional fraction (a dot and one digit or more) and an optional
    exponent (e or E, an optional sign, one digit or more). *)

Definition match_integer (s : pystr) : option (pystr * pystr) :=
  let body (sign s1 : pystr) :=
    match s1 with
    | d :: r =>
        if d =? 48 then Some (sign ++ [d], r)
        else if is_digit d
        then let (ds, r') := span_digits r in Some (sign ++ d :: ds, r')
        else None
    | [] => None
    end in
  match s with
  | c :: r => if c =? 45 then body [c] r else body [] s
  | [] => None
  end.

Definition match_frac (s : pystr) : option (pystr * pystr) :=
  match s with
  | c :: r =>
      if c =? 46 then
        match span_digits r with
        | ([], _) => None
        | (ds, r') => Some (c :: ds, r')
        end
      else None
  | [] => None
  end.

Definition match_exp (s : pystr) : option (pystr * pystr) :=
  match s with
  | e :: r =>
      if (e =? 101) || (e =? 69) then
        let (sign, r1) :=
          match r with
          | c :: r' => if (c =? 43) || (c =? 45) then ([c], r') else ([], r)
          | [] => ([], r)
          end in
        match span_digits r1 with
        | ([], _) => None
        | (ds, r2) => Some (e :: sign ++ ds, r2)
        end
      else None
  | [] => None
  end.

(** [int(text)] for an optional minus sign and decimal digits. *)
Definition nat_of_digits (ds : pystr) : N :=
  fold_left (fun acc d => acc * 10 + (d - 48)) ds 0.

Definition parse_int (text : pystr) : Z :=
  match text with
  | c :: ds => if c =? 45 then Z.opp (Z.of_N (nat_of_digits ds))
               else Z.of_N (nat_of_digits text)
  | [] => 0%Z
  end.

(** *** Floats

    A Python [float] is an IEEE 754 double: a [spec_float] with 53 bits
    of precision and 1024 as the exponent of the infinities. *)

(** The same double.  (Python's [==] differs on two points: [nan] is
    not equal to itself, and the two zeros are equal.) *)
Definition float_eqb (x y : spec_float) : bool :=
  match x, y with
  | S754_zero s, S754_zero s' => Bool.eqb s s'
  | S754_infinity s, S754_infinity s' => Bool.eqb s s'
  | S754_nan, S754_nan => true
  | S754_finite s m e, S754_finite s' m' e' =>
      Bool.eqb s s' && Pos.eqb m m' && Z.eqb e e'
  | _, _ => false
  end.

Definition is_nan (x : spec_float) : bool :=
  match x with S754_nan => true | _ => false end.

Definition is_finite (x : spec_float) : bool :=
  match x with S754_zero _ | S754_finite _ _ _ => true | _ => false end.

(** The fraction [n/d] times [10 ^ j]. *)
Definition scale10 (nd : Z * Z) (j : Z) : Z * Z :=
  let (n, d) := nd in
  if (0 <=? j)%Z then (n * 10 ^ j, d)%Z else (n, d * 10 ^ (- j))%Z.

(** The double nearest to [digits * 10 ^ exp10], ties to even: what
    [float] makes of a decimal literal. *)
Definition float_of_decimal (neg : bool) (digits : N) (exp10 : Z)
  : spec_float :=
  match digits with
  | N0 => S754_zero neg
  | Npos p =>
      let (n, d) := scale10 (Zpos p, 1%Z) exp10 in
      let '(q, e, l) := SFdiv_core_binary 53 1024 n 0 d 0 in
      binary_round_aux 53 1024 neg q e l
  end.

(** [float(integer + frac + exp)] for the three groups of [NUMBER_RE]. *)
Definition float_of_literal (integer frac exp : pystr) : spec_float :=
  let (neg, idigits) :=
    match integer with
    | c :: ds => if c =? 45 then (true, ds) else (false, integer)
    | [] => (false, [])
    end in
  let fdigits := tl frac in
  let e :=
    match exp with
    | _ :: c :: ds => if c =? 43 then parse_int ds else parse_int (c :: ds)
    | _ => 0%Z
    end in
  float_of_decimal neg (nat_of_digits (idigits ++ fdigits))
                   (e - Z.of_nat (List.length fdigits)).

(** [float.__repr__]: the shortest decimal numeral that reads back as
    the same double, and the nearest to it among these. *)

(** The value [m * 2 ^ e] as a fraction. *)
Definition fraction (m : positive) (e : Z) : Z * Z :=
  if (0 <=? e)%Z then (Zpos m * 2 ^ e, 1)%Z else (Zpos m, 2 ^ (- e))%Z.

(** The least [k] from [k] on with [n/d < 10 ^ k]. *)
Fixpoint point_from (fuel : nat) (nd : Z * Z) (k : Z) : Z :=
  match fuel with
  | O => k
  | S fuel' =>
      let (n, d) := scale10 nd (- k) in
      if (n <? d)%Z then k else point_from fuel' nd (k + 1)
  end.

(** The position of the decimal point of [n/d]: the least [k] with
    [n/d < 10 ^ k], searched from an estimate below it. *)
Definition decimal_point (nd : Z * Z) : Z :=
  let (n, d) := nd in
  point_from 8 nd ((Z.log2 n - Z.log2 d) * 30103 / 100000 - 1).

(** The numeral of [p] digits or more, from the two that enclose [n/d]:
    the first [p] at which one of them reads back as [x]; with seventeen
    digits the nearest one does.  The result is the digits, as a number,
    and the power of ten they are scaled by. *)
Fixpoint shortest (fuel : nat) (x : spec_float) (nd : Z * Z) (k p : Z)
  : Z * Z :=
  let (n, d) := scale10 nd (p - k) in
  let lo := (n / d)%Z in
  let hi := (lo + 1)%Z in
  let near :=
    match (2 * (n mod d) ?= d)%Z with
    | Lt => lo
    | Gt => hi
    | Eq => if Z.even lo then lo else hi
    end in
  match fuel with
  | O => (near, (k - p)%Z)
  | S fuel' =>
      let reads c := float_eqb (float_of_decimal false (Z.to_N c) (k - p)) x in
      if reads lo then (if reads hi then near else lo, (k - p)%Z)
      else if reads hi then (hi, (k - p)%Z)
      else shortest fuel' x nd k (p + 1)
  end.

(** Trailing zeros go into the power of ten. *)
Fixpoint strip_zeros (fuel : nat) (c e : Z) : Z * Z :=
  match fuel with
  | O => (c, e)
  | S fuel' =>
      if (c mod 10 =? 0)%Z then strip_zeros fuel' (c / 10) (e + 1)
      else (c, e)
  end.

(** [format_float_short] in its repr mode: the digits [ds] with the
    decimal point after [decpt] of them; an exponent when the point is
    more than sixteen digits to the right or more than three zeros to
    the left. *)
Definition format_repr (ds : pystr) (decpt : Z) : pystr :=
  let n := Z.of_nat (List.length ds) in
  if (decpt <=? -4)%Z || (16 <? decpt)%Z then
    let e := (decpt - 1)%Z in
    match ds with d :: (_ :: _) as r => d :: 46 :: r | _ => ds end
    ++ [101; if (e <? 0)%Z then 45 else 43]
    ++ (if (Z.abs e <? 10)%Z then [48] else [])
    ++ str_of_N (Z.abs_N e)
  else if (decpt <=? 0)%Z then
    u "0." ++ repeat 48 (Z.to_nat (- decpt)) ++ ds
  else if (n <=? decpt)%Z then
    ds ++ repeat 48 (Z.to_nat (decpt - n)) ++ u ".0"
  else
    firstn (Z.to_nat decpt) ds ++ [46] ++ skipn (Z.to_nat decpt) ds.

Definition float_repr (x : spec_float) : pystr :=
  match x with
  | S754_nan => u "nan"
  | S754_infinity s => if s then u "-inf" else u "inf"
  | S754_zero s => if s then u "-0.0" else u "0.0"
  | S754_finite s m e =>
      let nd := fraction m e in
      let (c, e10) :=
        shortest 16 (S754_finite false m e) nd (decimal_point nd) 1 in
      let (c', e10') := strip_zeros 17 c e10 in
      let ds := str_of_N (Z.to_N c') in
      (if s then [45] else [])
      ++ format_repr ds (Z.of_nat (List.length ds) + e10')
  end.

(** [floatstr] of [json.encoder], with [allow_nan] on. *)
Definition floatstr (x : spec_float) : pystr :=
  match x with
  | S754_nan => u "NaN"
  | S754_infinity s => if s then u "-Infinity" else u "Infinity"
  | _ => float_repr x
  end.

(** *** The limits of the interpreter

    Two limits of the interpreter reach into [json].  One is the
    recursion limit: [max_depth] is the number of nested arrays and
    objects the scanner may still enter when it starts; [error_room] is
    the number of such levels that building a [JSONDecodeError] inside
    the scanner takes (three on CPython 3.11), and [call_room] the
    number that the call of [parse_constant] takes (one on CPython
    3.11); the interpreter is taken to have that room where
    [json.loads] itself runs.  The other is
    [sys.get_int_max_str_digits()], the cap on the digits of an integer
    (CPython 3.11 and the security releases of 3.7 to 3.10; zero, as in
    older versions, is no cap). *)
Record limits : Type := Limits {
  max_depth : nat;
  error_room : nat;
  call_room : nat;
  max_digits : N
}.

(** The test that [int(text)] and [int.__repr__] make on the number of
    digits: above the threshold of 640 and above the cap, when there is
    one. *)
Definition too_many_digits (lim : limits) (n : N) : bool :=
  (640 <? n) && (0 <? max_digits lim) && (max_digits lim <? n).

(** The message of the [ValueError] of [int(text)], as CPython 3.11
    words it. *)
Definition digits_message (lim : limits) (n : N) : pystr :=
  u "Exceeds the limit (" ++ str_of_N (max_digits lim)
  ++ u " digits) for integer string conversion: value has "
  ++ str_of_N n
  ++ u " digits; use sys.set_int_max_str_digits() to increase the limit".

(** The outcome of a scan: [Invalid] is the scanner giving up
    ([StopIteration] or [JSONDecodeError]); [Raised] is another
    exception, which nothing in [json] catches; [OutOfFuel] is the bound
    on the calls of the model being reached, which [decode] excludes. *)
Inductive scan (A : Type) : Type :=
| OutOfFuel
| Invalid
| Raised (e : pyexn)
| Found (a : A) (rest : pystr).
Arguments OutOfFuel {A}.
Arguments Invalid {A}.
Arguments Raised {A} e.
Arguments Found {A} a rest.

Definition scan_map {A B : Type} (f : A -> B) (r : scan A) : scan B :=
  match r with
  | OutOfFuel => OutOfFuel
  | Invalid => Invalid
  | Raised e => Raised e
  | Found a rest => Found (f a) rest
  end.

(** [raise_errmsg]: the scanner reports a malformed text with a
    [JSONDecodeError] that it builds on the spot, [depth] levels from
    the recursion limit; without the room for it, [RecursionError]
    comes out instead. *)
Definition malformed {A : Type} (lim : limits) (depth : nat) : scan A :=
  if (depth <? error_room lim)%nat then Raised RecursionError else Invalid.

(** The digits of the integer part, its sign left out. *)
Definition count_digits (integer : pystr) : N :=
  match integer with
  | c :: ds => if c =? 45 then N.of_nat (List.length ds)
               else N.of_nat (List.length integer)
  | [] => 0
  end.

(** [NUMBER_RE.match]: the three groups and what follows them. *)
Definition match_number (s : pystr)
  : option (pystr * pystr * pystr * pystr) :=
  match match_integer s with
  | None => None
  | Some (integer, r) =>
      let (frac, r1) :=
        match match_frac r with Some (f, r') => (f, r') | None => ([], r) end in
      let (exp, r2) :=
        match match_exp r1 with
        | Some (e, r') => (e, r')
        | None => ([], r1)
        end in
      Some (integer, frac, exp, r2)
  end.

(** The number branch of [_scan_once]: [Invalid] when no number starts
    here; an integer literal goes through [int], which may refuse it. *)
Definition scan_number (lim : limits) (s : pystr) : scan pyval :=
  match match_number s with
  | None => Invalid
  | Some (integer, [], [], rest) =>
      if too_many_digits lim (count_digits integer)
      then Raised (ValueError (digits_message lim (count_digits integer)))
      else Found (PInt (parse_int integer)) rest
  | Some (integer, frac, exp, rest) =>
      Found (PFloat (float_of_literal integer frac exp)) rest
  end.

(** The value of a constant, through the call of [parse_constant]. *)
Definition constant (lim : limits) (depth : nat) (x : spec_float)
                    (rest : pystr) : scan pyval :=
  if (depth <? call_room lim)%nat then Raised RecursionError
  else Found (PFloat x) rest.

(** *** Values *)

(** [_scan_once], [JSONArray] and [JSONObject].  [array_items] is the
    loop of [JSONArray], entered at the start of a value; [object_items]
    is the loop of [JSONObject], entered after the opening quote of a
    key.  [depth] is the number of arrays and objects that may still be
    entered: the scanner enters one before it reads anything of it, and
    with none left it raises [RecursionError].  Where a value is missing
    the scanner gives up with [StopIteration], which takes no room. *)
Fixpoint scan_once (fuel : nat) (lim : limits) (depth : nat) (s : pystr)
         {struct fuel} : scan pyval :=
  match fuel with
  | O => OutOfFuel
  | S fuel' =>
      match s with
      | [] => Invalid
      | c :: r =>
          if c =? 34 then
            match scanstring r with
            | Some (str, rest) => Found (PStr str) rest
            | None => malformed lim depth
            end
          else if c =? 123 then
            match depth with
            | O => Raised RecursionError
            | S depth' =>
                match skip_ws r with
                | q :: r' =>
                    if q =? 125 then Found (PDict []) r'
                    else if q =? 34
                    then scan_map (fun ps => PDict (dict_of_pairs ps))
                                  (object_items fuel' lim depth' r')
                    else malformed lim depth'
                | [] => malformed lim depth'
                end
            end
          else if c =? 91 then
            match depth with
            | O => Raised RecursionError
            | S depth' =>
                match skip_ws r with
                | q :: r' =>
                    if q =? 93 then Found (PList []) r'
                    else scan_map PList
                                  (array_items fuel' lim depth' (q :: r'))
                | [] => Invalid
                end
            end
          else
            match strip_prefix (u "null") s with
            | Some rest => Found PNone rest
            | None =>
            match strip_prefix (u "true") s with
            | Some rest => Found (PBool true) rest
            | None =>
            match strip_prefix (u "false") s with
            | Some rest => Found (PBool false) rest
            | None =>
            match scan_number lim s with
            | Found v rest => Found v rest
            | Raised e => Raised e
            | _ =>
            match strip_prefix (u "NaN") s with
            | Some rest => constant lim depth S754_nan rest
            | None =>
            match strip_prefix (u "Infinity") s with
            | Some rest => constant lim depth (S754_infinity false) rest
            | None =>
            match strip_prefix (u "-Infinity") s with
            | Some rest => constant lim depth (S754_infinity true) rest
            | None => Invalid
            end end end end end end end
      end
  end

with array_items (fuel : nat) (lim : limits) (depth : nat) (s : pystr)
                 {struct fuel} : scan (list pyval) :=
  match fuel with
  | O => OutOfFuel
  | S fuel' =>
      match scan_once fuel' lim depth s with
      | OutOfFuel => OutOfFuel
      | Invalid => Invalid
      | Raised e => Raised e
      | Found v r =>
          match skip_ws r with
          | c :: r' =>
              if c =? 93 then Found [v] r'
              else if c =? 44
              then scan_map (cons v)
                            (array_items fuel' lim depth (skip_ws r'))
              else malformed lim depth
          | [] => malformed lim depth
          end
      end
  end

with object_items (fuel : nat) (lim : limits) (depth : nat) (s : pystr)
                  {struct fuel} : scan (list (pystr * pyval)) :=
  match fuel with
  | O => OutOfFuel
  | S fuel' =>
      match scanstring s with
      | None => malformed lim depth
      | Some (key, r) =>
          match skip_ws r with
          | c :: r1 =>
              if c =? 58 then
                match scan_once fuel' lim depth (skip_ws r1) with
                | OutOfFuel => OutOfFuel
                | Invalid => Invalid
                | Raised e => Raised e
                | Found v r2 =>
                    match skip_ws r2 with
                    | d :: r3 =>
                        if d =? 125 then Found [(key, v)] r3
                        else if d =? 44 then
                          match skip_ws r3 with
                          | q :: r4 =>
                              if q =? 34
                              then scan_map (cons (key, v))
                                     (object_items fuel' lim depth r4)
                              else malformed lim depth
                          | [] => malformed lim depth
                          end
                        else malformed lim depth
                    | [] => malformed lim depth
                    end
                end
              else malformed lim depth
          | [] => malformed lim depth
          end
      end
  end.

(** [JSONDecoder.decode]: one value, white space around it, nothing
    else; every failure of the scanner itself is [JSONDecodeError].
    [scan_once] consumes a character before it calls a loop, and a loop
    calls [scan_once] once for each item, so twice the length of the
    text bounds the calls of the model ([scan_total]). *)
Definition decode (lim : limits) (s : pystr) : pyval + pyexn :=
  match scan_once (S (2 * List.length s)) lim (max_depth lim) (skip_ws s) with
  | Found v rest =>
      match skip_ws rest with
      | [] => inl v
      | _ :: _ => inr JSONDecodeError
      end
  | Raised e => inr e
  | _ => inr JSONDecodeError
  end.

(** [s.startswith('\ufeff')] *)
Definition starts_with_bom (s : pystr) : bool :=
  match s with
  | c :: _ => c =? 65279
  | [] => false
  end.

(** [json.loads(v)] *)
Definition loads (lim : limits) (v : pyval) : pyval + pyexn :=
  match v with
  | PStr s => if starts_with_bom s then inr JSONDecodeError else decode lim s
  | PBytes b | PByteArray b =>
      match Codec.bytes_decode b with
      | Some s => decode lim s
      | None => inr UnicodeDecodeError
      end
  | _ => inr TypeError
  end.

(** *** Encoding: [json.dumps] with its default options *)

Definition hexdigit (n : N) : N := if n <? 10 then 48 + n else 87 + n.

(** ['\\u{0:04x}'.format(n)] *)
Definition escape_u (n : N) : pystr :=
  [92; 117; hexdigit (n / 4096); hexdigit ((n / 256) mod 16);
   hexdigit ((n / 16) mod 16); hexdigit (n mod 16)].

(** The replacement [py_encode_basestring_ascii] makes for one character. *)
Definition escape_char (c : N) : pystr :=
  if c =? 34 then [92; 34]
  else if c =? 92 then [92; 92]
  else if c =? 10 then [92; 110]
  else if c =? 13 then [92; 114]
  else if c =? 9 then [92; 116]
  else if c =? 12 then [92; 102]
  else if c =? 8 then [92; 98]
  else if (32 <=? c) && (c <=? 126) then [c]
  else if c <? 65536 then escape_u c
  else
    let n := c - 65536 in
    escape_u (55296 + (n / 1024) mod 1024) ++ escape_u (56320 + n mod 1024).

Definition encode_string (s : pystr) : pystr :=
  34 :: flat_map escape_char s ++ [34].

(** [', '.join(...)] of the rendered items, closed by [close]; [None]
    as soon as one item cannot be rendered. *)
Section Join.

Variable A : Type.
Variable render : A -> option pystr.

Fixpoint join_items (close : N) (l : list A) : option pystr :=
  match l with
  | [] => Some [close]
  | x :: l' =>
      match render x, join_items close l' with
      | Some a, Some b =>
          Some (a ++ match l' with [] => b | _ :: _ => u ", " ++ b end)
      | _, _ => None
      end
  end.

End Join.
Arguments join_items {A} render close l.

(** The decimal digits of an integer. *)
Definition int_digits (z : Z) : N :=
  N.of_nat (List.length (str_of_N (Z.abs_N z))).

(** [json.dumps(v)]; [None] where it raises: [TypeError] for a value
    that is not of the types of JSON, [ValueError] for an integer of
    more digits than [int.__repr__] writes.  The encoder is taken to
    have the room for the nesting of the value. *)
Fixpoint dumps (lim : limits) (v : pyval) : option pystr :=
  match v with
  | PNone => Some (u "null")
  | PBool true => Some (u "true")
  | PBool false => Some (u "false")
  | PInt z =>
      if too_many_digits lim (int_digits z) then None
      else Some (str_of_Z z)
  | PFloat x => Some (floatstr x)
  | PStr s => Some (encode_string s)
  | PList l => option_map (cons 91) (join_items (dumps lim) 93 l)
  | PDict d =>
      option_map (cons 123)
        (join_items
           (fun kv =>
              option_map (fun a => encode_string (fst kv) ++ u ": " ++ a)
                         (dumps lim (snd kv)))
           125 d)
  | _ => None
  end.

(** Where a number may end: not before a digit, a dot or an exponent. *)
Definition number_end (rest : pystr) : bool :=
  match rest with
  | [] => true
  | c :: _ => negb (is_digit c || (c =? 46) || (c =? 101) || (c =? 69))
  end.

(** *** The values of the JSON data model *)

(** A Unicode character: a code point that is not a surrogate. *)
Definition is_scalar (c : N) : bool :=
  (c <? 55296) || ((57343 <? c) && (c <=? 1114111)).

Definition is_text (s : pystr) : bool := forallb is_scalar s.

Fixpoint unique_keys (d : pydict) : bool :=
  match d with
  | [] => true
  | (k, _) :: d' =>
      match dict_lookup d' k with
      | Some _ => false
      | None => unique_keys d'
      end
  end.

(** [None], booleans, integers, floats other than [nan] (which is not
    equal to itself), text, lists, and dictionaries with distinct text
    keys. *)
Fixpoint json_value (v : pyval) : bool :=
  match v with
  | PNone | PBool _ | PInt _ => true
  | PFloat x => negb (is_nan x)
  | PStr s => is_text s
  | PList l => forallb json_value l
  | PDict d =>
      unique_keys d
      && forallb (fun kv => is_text (fst kv) && json_value (snd kv)) d
  | _ => false
  end.

(** *** Vocabulary of the round trip *)

(** How [dumps] renders one pair of a dictionary. *)
Definition render_pair (lim : limits) (kv : pystr * pyval) : option pystr :=
  option_map (fun a => encode_string (fst kv) ++ u ": " ++ a)
             (dumps lim (snd kv)).

(** The first character of an encoded value: not white space, not a
    closing bracket and not a byte-order mark. *)
Definition value_start (text : pystr) : Prop :=
  exists c t,
    text = c :: t /\ is_ws c = false /\ c <> 93 /\ c <> 65279.

(** The room that scanning the encoding of a value takes: a level for
    each array or object around a value, and the call for an infinity. *)
Fixpoint room (lim : limits) (v : pyval) : nat :=
  match v with
  | PFloat x => if is_finite x then O else call_room lim
  | PList l => S (fold_right (fun x m => Nat.max (room lim x) m) O l)
  | PDict d =>
      S (fold_right (fun kv m => Nat.max (room lim (snd kv)) m) O d)
  | _ => O
  end.

(** No integer of the value has more digits than [int] takes. *)
Fixpoint ints_fit (lim : limits) (v : pyval) : bool :=
  match v with
  | PInt z => negb (too_many_digits lim (int_digits z))
  | PList l => forallb (ints_fit lim) l
  | PDict d => forallb (fun kv => ints_fit lim (snd kv)) d
  | _ => true
  end.

(** [float(repr(x)) == x] for a finite double, which is what
    [float.__repr__] is made for: the numeral it writes has a fraction
    or an exponent and reads back as the same double. *)
Definition reads_back (x : spec_float) : bool :=
  negb (is_finite x)
  || match match_number (float_repr x) with
     | Some (integer, frac, exp, []) =>
         negb (match frac, exp with [], [] => true | _, _ => false end)
         && float_eqb (float_of_literal integer frac exp) x
     | _ => false
     end.

(** Every float of the value reads back. *)
Fixpoint floats_read_back (v : pyval) : bool :=
  match v with
  | PFloat x => reads_back x
  | PList l => forallb floats_read_back l
  | PDict d => forallb (fun kv => floats_read_back (snd kv)) d
  | _ => true
  end.

(** A threshold of fuel from which a scan gives [v] and leaves [rest]. *)
Definition scans_to (lim : limits) (d : nat) (v : pyval) (s rest : pystr)
  : Prop :=
  exists f0 : nat,
  forall f : nat, (f0 <= f)%nat -> scan_once f lim d s = Found v rest.

(** What the round trip says of one value. *)
Definition dumps_ok (lim : limits) (x : pyval) : Prop :=
  json_value x = true ->
  floats_read_back x = true ->
  ints_fit lim x = true ->
  exists text,
    dumps lim x = Some text /\ value_start text
    /\ forall d rest,
         (room lim x <= d)%nat -> number_end rest = true ->
         scans_to lim d x (text ++ rest) rest.

End Json.

(* ================================================================= *)
(** ** [prefect.client.secrets] *)

Module Secrets.

(** What a call does to its surroundings, in order. *)
Inductive event : Type :=
| ContextGet (key : pystr)       (* prefect.context.get(key, ...) *)
| ConfigRead                     (* prefect.config.cloud.use_local_secrets *)
| Subscript (key : pystr)        (* secrets[key] *)
| ClientQuery (name : pystr).    (* Client().graphql(..., name=name) *)

(** How the remote client fails: with [ClientError], or with an
    exception of another class, of its own or of the transport under it
    ([AuthorizationError], a connection error). *)
Inductive client_failure : Type :=
| Refused (msg : pystr)
| Broken (cls msg : pystr).

(** The exception a failure of the client is. *)
Definition client_exn (f : client_failure) : pyexn :=
  match f with
  | Refused msg => ClientError msg
  | Broken cls msg => OtherError cls msg
  end.

(** The process-wide state the method runs in.  [secret_service] is the
    remote collaborator: for a name, the [secretValue] of the reply of
    [Client().graphql], or the way it fails. *)
Record world : Type := World {
  context : pydict;
  use_local_secrets : pyval;
  secret_service : pystr -> pyval + client_failure;
  trace : list event
}.

(** Computations that read and write the world and may raise. *)
Definition M (A : Type) : Type := world -> (A + pyexn) * world.

Definition ret {A : Type} (a : A) : M A := fun w => (inl a, w).

Definition raise {A : Type} (e : pyexn) : M A := fun w => (inr e, w).

Definition bind {A B : Type} (m : M A) (k : A -> M B) : M B :=
  fun w =>
    match m w with
    | (inl a, w') => k a w'
    | (inr e, w') => (inr e, w')
    end.

(** [try: m  except ...: handler]; a handler answering [None] does not
    catch the exception. *)
Definition try_except {A : Type} (m : M A) (handler : pyexn -> option (M A))
  : M A :=
  fun w =>
    match m w with
    | (inl a, w') => (inl a, w')
    | (inr e, w') =>
        match handler e with
        | Some h => h w'
        | None => (inr e, w')
        end
    end.

Notation "x <- m ;; k" := (bind m (fun x => k))
  (at level 61, m at next level, right associativity).

Definition log (e : event) (w : world) : world :=
  World (context w) (use_local_secrets w) (secret_service w) (trace w ++ [e]).

(** The value of [prefect.context.get(key, default)]. *)
Definition context_value (w : world) (key : pystr) (default : pyval) : pyval :=
  match dict_lookup (context w) key with
  | Some v => v
  | None => default
  end.

(** [prefect.context.get(key, default)] *)
Definition context_get (key : pystr) (default : pyval) : M pyval :=
  fun w => (inl (context_value w key default), log (ContextGet key) w).

(** [prefect.config.cloud.use_local_secrets] *)
Definition config_use_local_secrets : M pyval :=
  fun w => (inl (use_local_secrets w), log ConfigRead w).

(** [container[key]] for a [str] key: [KeyError] from a mapping without
    the key, [TypeError] from anything that is not a mapping. *)
Definition getitem (container : pyval) (key : pystr) : M pyval :=
  fun w =>
    (match container with
     | PDict d =>
         match dict_lookup d key with
         | Some v => inl v
         | None => inr (KeyError key)
         end
     | _ => inr TypeError
     end,
     log (Subscript key) w).

(** [json.loads(v)], in an interpreter with the limits [lim]. *)
Definition json_loads (lim : Json.limits) (v : pyval) : M pyval :=
  fun w => (Json.loads lim v, w).

(** [Client().graphql(query, name=name)], then [.data.secretValue]. *)
Definition client_graphql (name : pystr) : M pyval :=
  fun w =>
    (match secret_service w name with
     | inl v => inl v
     | inr f => inr (client_exn f)
     end,
     log (ClientQuery name) w).

(** Modelled from the spec: [prefect.utilities.collections.as_nested_dict]
    is not among the sources.  The payload is normalised into the nested
    representation of mappings, sequences and scalars, recursively and
    preserving structure. *)
Fixpoint as_nested_dict (v : pyval) : pyval :=
  match v with
  | PList l => PList (List.map as_nested_dict l)
  | PDict d => PDict (List.map (fun kv => (fst kv, as_nested_dict (snd kv))) d)
  | _ => v
  end.

Definition building_message : pystr :=
  u "Secrets should only be retrieved during a Flow run, "
  ++ u "not while building a Flow.".

(** ['Local Secret "{}" was not found.'.format(name)] *)
Definition not_found_message (name : pystr) : pystr :=
  u "Local Secret " ++ [34%N] ++ name ++ [34%N] ++ u " was not found.".

Record Secret : Type := { name : pystr }.

(** [Secret.get], in an interpreter with the limits [lim]. *)
Definition get (lim : Json.limits) (self : Secret) : M pyval :=
  flow <- context_get (u "flow") PNone ;;
  if isinstance_Flow flow then raise (ValueError building_message)
  else
    flag <- config_use_local_secrets ;;
    if is_True flag then
      secrets <- context_get (u "secrets") (PDict []) ;;
      value <- try_except (getitem secrets (name self))
                 (fun e =>
                    match e with
                    | KeyError _ =>
                        Some (raise (ValueError
                                       (not_found_message (name self))))
                    | _ => None
                    end) ;;
      try_except (json_loads lim value)
        (fun e =>
           match e with
           | JSONDecodeError | TypeError => Some (ret value)
           | _ => None
           end)
    else
      result <- client_graphql (name self) ;;
      ret (as_nested_dict result).

(** The error kinds of the specification. *)
Definition ContextViolation : pyexn := ValueError building_message.
Definition NotFound (name : pystr) : pyexn :=
  ValueError (not_found_message name).

(** *** Vocabulary of the properties *)

(** The context says that a Flow is being built. *)
Definition building_flow (w : world) : bool :=
  isinstance_Flow (context_value w (u "flow") PNone).

(** Local mode: the flag is the object [True]. *)
Definition local_mode (w : world) : bool := is_True (use_local_secrets w).

(** The local secret mapping, empty when the context has none. *)
Definition local_secrets (w : world) : pyval :=
  context_value w (u "secrets") (PDict []).

(** The names queried from the remote client, oldest first. *)
Fixpoint client_queries (tr : list event) : list pystr :=
  match tr with
  | [] => []
  | ClientQuery n :: tr' => n :: client_queries tr'
  | _ :: tr' => client_queries tr'
  end.

(** The reads of the local mapping, oldest first. *)
Fixpoint local_lookups (tr : list event) : list pystr :=
  match tr with
  | [] => []
  | Subscript n :: tr' => n :: local_lookups tr'
  | _ :: tr' => local_lookups tr'
  end.

(** The types [json.loads] takes: [str], [bytes] and [bytearray]. *)
Definition loads_accepts (v : pyval) : bool :=
  match v with
  | PStr _ | PBytes _ | PByteArray _ => true
  | _ => false
  end.

(** What local mode answers for a name, given the mapping. *)
Definition local_result (lim : Json.limits) (secrets : pyval) (name : pystr)
  : pyval + pyexn :=
  match secrets with
  | PDict d =>
      match dict_lookup d name with
      | Some raw =>
          match Json.loads lim raw with
          | inl v => inl v
          | inr JSONDecodeError | inr TypeError => inl raw
          | inr e => inr e
          end
      | None => inr (NotFound name)
      end
  | _ => inr TypeError
  end.

(** What remote mode answers for a name, given the service. *)
Definition remote_result (w : world) (name : pystr) : pyval + pyexn :=
  match secret_service w name with
  | inl v => inl (as_nested_dict v)
  | inr f => inr (client_exn f)
  end.

(** The world with the context [ctx] in place of its own. *)
Definition with_context (ctx : pydict) (w : world) : world :=
  World ctx (use_local_secrets w) (secret_service w) (trace w).

(** A service for the examples: it knows one secret. *)
Definition sample_service (name : pystr) : pyval + client_failure :=
  if str_eqb name (u "api_key")
  then inl (PDict [(u "token", PStr (u "t0k3n"))])
  else inr (Refused (u "secret not found on the server")).

(** An interpreter for the examples: CPython 3.11 with its cap of 4300
    digits and room for 900 nested arrays and objects. *)
Definition cpython : Json.limits := Json.Limits 900 3 1 4300.

(** A fresh world: nothing has happened yet. *)
Definition fresh_world (ctx : pydict) (flag : pyval) : world :=
  World ctx flag sample_service [].

(** The local mapping of the scenarios: a JSON string literal, a JSON
    boolean and a text that is not JSON; then two byte strings and a
    number that is already a number. *)
Definition scenario_secrets : pydict :=
  [ (u "db_pw", PStr ([34%N] ++ u "s3cr3t" ++ [34%N]));
    (u "flag", PStr (u "true"));
    (u "raw", PStr (u "not-json{"));
    (u "port", PBytes [x34; x32]);
    (u "blob", PBytes [xff]);
    (u "retries", PInt 3) ].

Definition scenario_context : pydict := [(u "secrets", PDict scenario_secrets)].

(** The context while a Flow named [etl] is being built. *)
Definition building_context : pydict :=
  [(u "flow", PFlow (u "etl")); (u "secrets", PDict scenario_secrets)].

(** *** Vocabulary of the further properties *)

(** [isinstance(v, dict)] *)
Definition is_dict (v : pyval) : bool :=
  match v with PDict _ => true | _ => false end.

(** A payload that [as_nested_dict] has nothing to do for: neither a
    sequence nor a mapping. *)
Definition is_scalar_payload (v : pyval) : bool :=
  match v with PList _ | PDict _ => false | _ => true end.

(** The accesses of a call: what it adds to the trace. *)
Definition accesses (lim : Json.limits) (self : Secret) (w : world)
  : list event :=
  skipn (List.length (trace w)) (trace (snd (get lim self w))).

(** Printable ASCII, the alphabet of what [json.dumps] writes. *)
Definition is_printable (c : N) : bool := (32 <=? c)%N && (c <=? 126)%N.

(** A service that answers every name with the same text. *)
Definition text_service (text : pystr) (name : pystr)
  : pyval + client_failure :=
  inl (PStr text).



(** An interpreter that is two levels from its recursion limit, and a
    mapping that holds an array nested three deep. *)
Definition shallow : Json.limits := Json.Limits 2 3 1 4300.

Definition nested_context : pydict :=
  [(u "secrets", PDict [(u "nested", PStr (u "[[[1]]]"))])].



End Secrets.

Import Json Secrets.

(* ================================================================= *)
(** ** Facts about strings and dictionaries *)

Lemma str_eqb_refl (a : pystr) : str_eqb a a = true.
Proof.
  induction a as [|x a IH]; simpl; [reflexivity|].
  now rewrite N.eqb_refl, IH.
Qed.

Lemma str_eqb_eq (a b : pystr) : str_eqb a b = true <-> a = b.
Proof.
  split; [|intros ->; apply str_eqb_refl].
  revert b; induction a as [|x a IH]; intros [|y b]; simpl; try discriminate.
  - reflexivity.
  - intros H. apply andb_true_iff in H as [Hx Hab].
    apply N.eqb_eq in Hx. now rewrite Hx, (IH b Hab).
Qed.

Lemma str_eqb_neq (a b : pystr) : str_eqb a b = false <-> a <> b.
Proof.
  split.
  - intros H E. apply str_eqb_eq in E. congruence.
  - intros H. destruct (str_eqb a b) eqn:E; [|reflexivity].
    apply str_eqb_eq in E. contradiction.
Qed.

(** Setting a fresh key appends the pair. *)
Lemma dict_set_fresh (d : pydict) (k : pystr) (v : pyval) :
  dict_lookup d k = None -> dict_set d k v = d ++ [(k, v)].
Proof.
  induction d as [|[k' v'] d IH]; simpl; [reflexivity|].
  destruct (str_eqb k' k); [discriminate|].
  intros H. now rewrite IH.
Qed.

Lemma dict_lookup_app_fresh (d : pydict) (k k' : pystr) (v : pyval) :
  k' <> k -> dict_lookup (d ++ [(k', v)]) k = dict_lookup d k.
Proof.
  intros Hk. induction d as [|[k0 v0] d IH]; simpl.
  - apply str_eqb_neq in Hk. now rewrite Hk.
  - destruct (str_eqb k0 k); [reflexivity|apply IH].
Qed.

(** [dict(pairs)] of pairs with distinct keys is the list of pairs. *)
Lemma dict_of_pairs_unique (pairs : pydict) :
  unique_keys pairs = true -> dict_of_pairs pairs = pairs.
Proof.
  unfold dict_of_pairs.
  enough (G : forall acc,
             (forall k, dict_lookup pairs k <> None ->
                        dict_lookup acc k = None) ->
             unique_keys pairs = true ->
             fold_left (fun d kv => dict_set d (fst kv) (snd kv)) pairs acc
             = acc ++ pairs).
  { intros H. apply (G []); [reflexivity|exact H]. }
  induction pairs as [|[k v] pairs IH]; intros acc Hacc Hu; simpl.
  - now rewrite app_nil_r.
  - simpl in Hu. destruct (dict_lookup pairs k) eqn:Hk; [discriminate|].
    rewrite dict_set_fresh.
    + rewrite IH; [now rewrite <- app_assoc| |exact Hu].
      intros k0 Hk0. rewrite dict_lookup_app_fresh.
      * apply Hacc. simpl. destruct (str_eqb k k0); congruence.
      * intros E. subst. congruence.
    + apply Hacc. simpl. rewrite str_eqb_refl. discriminate.
Qed.

(* ================================================================= *)
(** ** The scanner consumes its input *)

Lemma skip_ws_length (s : pystr) : List.length (skip_ws s) <= List.length s.
Proof.
  induction s as [|c s IH]; simpl; [lia|].
  destruct (is_ws c); simpl; lia.
Qed.

Lemma strip_prefix_length (p s r : pystr) :
  strip_prefix p s = Some r -> List.length s = List.length p + List.length r.
Proof.
  revert s; induction p as [|x p IH]; intros [|y s]; simpl; try discriminate.
  - now intros [= <-].
  - now intros [= <-].
  - destruct (x =? y)%N; [|discriminate]. intros H. apply IH in H. lia.
Qed.

Lemma span_digits_app (s ds r : pystr) :
  span_digits s = (ds, r) -> s = ds ++ r.
Proof.
  revert ds r; induction s as [|c s IH]; intros ds r; simpl.
  - now intros [= <- <-].
  - destruct (is_digit c).
    + destruct (span_digits s) as [ds' r'] eqn:E. intros [= <- <-].
      simpl. now rewrite (IH ds' r').
    + now intros [= <- <-].
Qed.

Lemma scanstring_length (s str r : pystr) :
  scanstring s = Some (str, r) -> List.length r < List.length s.
Proof.
  enough (G : forall n t str' r',
             List.length t <= n -> scanstring t = Some (str', r') ->
             List.length r' < List.length t).
  { apply (G (List.length s)). lia. }
  clear s str r.
  induction n as [|n IH]; intros s str r Hle.
  - destruct s; [discriminate|simpl in Hle; lia].
  - destruct s as [|c s]; [discriminate|].
    simpl in Hle. simpl scanstring. unfold more.
    assert (IH' : forall t str' r', List.length t <= List.length s ->
                    scanstring t = Some (str', r') ->
                    List.length r' < S (List.length t)).
    { intros t str' r' Ht E. apply IH in E; lia. }
    clear IH.
    destruct (c =? 34)%N.
    { intros [= <- <-]. simpl. lia. }
    destruct (c =? 92)%N.
    2:{ destruct (c <=? 31)%N; [discriminate|]. intros H.
        destruct (scanstring s) as [[? ?]|] eqn:E; [|discriminate].
        injection H as <- <-. apply IH' in E; simpl; lia. }
    destruct s as [|e r1]; [discriminate|].
    destruct (e =? 117)%N.
    2:{ destruct (unescape e); [|discriminate]. intros H.
        destruct (scanstring r1) as [[? ?]|] eqn:E; [|discriminate].
        injection H as <- <-. apply IH' in E; simpl in *; lia. }
    destruct r1 as [|h1 [|h2 [|h3 [|h4 r2]]]]; try discriminate.
    destruct (hex4 h1 h2 h3 h4) as [uni|]; [|discriminate].
    assert (Tail : forall x,
               more x (scanstring r2) = Some (str, r) ->
               List.length r
               < List.length (c :: e :: h1 :: h2 :: h3 :: h4 :: r2)).
    { intros x H. unfold more in H.
      destruct (scanstring r2) as [[? ?]|] eqn:E; [|discriminate].
      injection H as <- <-. apply IH' in E; simpl in *; lia. }
    destruct (Codec.is_high_surrogate uni); [|exact (Tail uni)].
    destruct r2 as [|b [|v [|g1 [|g2 [|g3 [|g4 r3]]]]]];
      try exact (Tail uni).
    destruct ((b =? 92)%N && (v =? 117)%N); [|exact (Tail uni)].
    destruct (hex4 g1 g2 g3 g4) as [uni2|]; [|discriminate].
    destruct (Codec.is_low_surrogate uni2); [|exact (Tail uni)].
    intros H. destruct (scanstring r3) as [[? ?]|] eqn:E; [|discriminate].
    injection H as <- <-. apply IH' in E; simpl in *; lia.
Qed.

Lemma span_digits_length (s ds r : pystr) :
  span_digits s = (ds, r) -> List.length r <= List.length s.
Proof.
  intros H. apply span_digits_app in H. subst. rewrite length_app. lia.
Qed.

Lemma match_integer_length (s i r : pystr) :
  match_integer s = Some (i, r) -> List.length r < List.length s.
Proof.
  assert (Body : forall sign s1,
             match s1 with
             | d :: r0 =>
                 if (d =? 48)%N then Some (sign ++ [d], r0)
                 else if is_digit d
                 then let (ds, r') := span_digits r0 in
                      Some (sign ++ d :: ds, r')
                 else None
             | [] => None
             end = Some (i, r) -> List.length r < List.length s1).
  { intros sign [|d r0]; [discriminate|].
    destruct (d =? 48)%N; [intros [= <- <-]; simpl; lia|].
    destruct (is_digit d); [|discriminate].
    destruct (span_digits r0) as [ds r'] eqn:E. intros [= <- <-].
    apply span_digits_length in E. simpl. lia. }
  unfold match_integer. destruct s as [|c s]; [discriminate|].
  destruct (c =? 45)%N; intros H;
    [apply (Body [c] s) in H|apply (Body [] (c :: s)) in H]; simpl in *; lia.
Qed.

Lemma match_frac_length (s f r : pystr) :
  match_frac s = Some (f, r) -> List.length r <= List.length s.
Proof.
  unfold match_frac. destruct s as [|c s]; [discriminate|].
  destruct (c =? 46)%N; [|discriminate].
  destruct (span_digits s) as [[|d ds] r'] eqn:E; [discriminate|].
  intros [= <- <-]. apply span_digits_length in E. simpl. lia.
Qed.

Lemma match_exp_length (s e r : pystr) :
  match_exp s = Some (e, r) -> List.length r <= List.length s.
Proof.
  unfold match_exp. destruct s as [|c s]; [discriminate|].
  destruct ((c =? 101)%N || (c =? 69)%N); [|discriminate].
  destruct s as [|c' s'].
  - simpl. discriminate.
  - destruct ((c' =? 43)%N || (c' =? 45)%N).
    + destruct (span_digits s') as [[|d ds] r'] eqn:E; [discriminate|].
      intros [= <- <-]. apply span_digits_length in E. simpl. lia.
    + destruct (span_digits (c' :: s')) as [[|d ds] r'] eqn:E; [discriminate|].
      intros [= <- <-]. apply span_digits_length in E. simpl in *. lia.
Qed.

Lemma match_number_length (s i f e r : pystr) :
  match_number s = Some (i, f, e, r) -> List.length r < List.length s.
Proof.
  unfold match_number.
  destruct (match_integer s) as [[i0 r0]|] eqn:Ei; [|discriminate].
  apply match_integer_length in Ei.
  destruct (match_frac r0) as [[f0 r1]|] eqn:Ef.
  - apply match_frac_length in Ef.
    destruct (match_exp r1) as [[e0 r2]|] eqn:Ee.
    + apply match_exp_length in Ee. intros [= <- <- <- <-]. lia.
    + intros [= <- <- <- <-]. lia.
  - destruct (match_exp r0) as [[e0 r2]|] eqn:Ee.
    + apply match_exp_length in Ee. intros [= <- <- <- <-]. lia.
    + intros [= <- <- <- <-]. lia.
Qed.

Lemma scan_number_length (lim : limits) (s r : pystr) (v : pyval) :
  scan_number lim s = Found v r -> List.length r < List.length s.
Proof.
  unfold scan_number.
  destruct (match_number s) as [[[[i f] e] r0]|] eqn:E; [|discriminate].
  apply match_number_length in E.
  destruct f, e; try (intros [= <- <-]; exact E).
  destruct (too_many_digits lim (count_digits i)); [discriminate|].
  intros [= <- <-]; exact E.
Qed.

Lemma scan_map_found (A B : Type) (f : A -> B) (x : scan A) (b : B)
      (r : pystr) :
  scan_map f x = Found b r -> exists a, x = Found a r /\ b = f a.
Proof.
  destruct x; simpl; try discriminate. intros [= <- <-]. eauto.
Qed.

Lemma scan_map_fuel (A B : Type) (f : A -> B) (x : scan A) :
  scan_map f x = OutOfFuel <-> x = OutOfFuel.
Proof. destruct x; simpl; split; congruence. Qed.

Lemma malformed_found (A : Type) (lim : limits) (d : nat) (a : A)
      (r : pystr) :
  malformed lim d <> Found a r.
Proof. unfold malformed. destruct (d <? error_room lim)%nat; discriminate. Qed.

Lemma malformed_fuel (A : Type) (lim : limits) (d : nat) :
  @malformed A lim d <> OutOfFuel.
Proof. unfold malformed. destruct (d <? error_room lim)%nat; discriminate. Qed.

Lemma constant_found (lim : limits) (d : nat) (x : spec_float)
      (rest : pystr) (v : pyval) (r : pystr) :
  constant lim d x rest = Found v r -> r = rest.
Proof.
  unfold constant. destruct (d <? call_room lim)%nat; [discriminate|].
  now intros [= _ <-].
Qed.

Lemma constant_fuel (lim : limits) (d : nat) (x : spec_float)
      (rest : pystr) :
  constant lim d x rest <> OutOfFuel.
Proof. unfold constant. destruct (d <? call_room lim)%nat; discriminate. Qed.

(** The unfoldings of the three scanners at a positive bound. *)
Lemma scan_once_S (fuel : nat) (lim : limits) (depth : nat) (s : pystr) :
  scan_once (S fuel) lim depth s =
  match s with
  | [] => Invalid
  | c :: r =>
      if (c =? 34)%N then
        match scanstring r with
        | Some (str, rest) => Found (PStr str) rest
        | None => malformed lim depth
        end
      else if (c =? 123)%N then
        match depth with
        | O => Raised RecursionError
        | S depth' =>
            match skip_ws r with
            | q :: r' =>
                if (q =? 125)%N then Found (PDict []) r'
                else if (q =? 34)%N
                then scan_map (fun ps => PDict (dict_of_pairs ps))
                              (object_items fuel lim depth' r')
                else malformed lim depth'
            | [] => malformed lim depth'
            end
        end
      else if (c =? 91)%N then
        match depth with
        | O => Raised RecursionError
        | S depth' =>
            match skip_ws r with
            | q :: r' =>
                if (q =? 93)%N then Found (PList []) r'
                else scan_map PList (array_items fuel lim depth' (q :: r'))
            | [] => Invalid
            end
        end
      else
        match strip_prefix (u "null") s with
        | Some rest => Found PNone rest
        | None =>
        match strip_prefix (u "true") s with
        | Some rest => Found (PBool true) rest
        | None =>
        match strip_prefix (u "false") s with
        | Some rest => Found (PBool false) rest
        | None =>
        match scan_number lim s with
        | Found v rest => Found v rest
        | Raised e => Raised e
        | _ =>
        match strip_prefix (u "NaN") s with
        | Some rest => constant lim depth S754_nan rest
        | None =>
        match strip_prefix (u "Infinity") s with
        | Some rest => constant lim depth (S754_infinity false) rest
        | None =>
        match strip_prefix (u "-Infinity") s with
        | Some rest => constant lim depth (S754_infinity true) rest
        | None => Invalid
        end end end end end end end
  end.
Proof. reflexivity. Qed.

Lemma array_items_S (fuel : nat) (lim : limits) (depth : nat) (s : pystr) :
  array_items (S fuel) lim depth s =
  match scan_once fuel lim depth s with
  | OutOfFuel => OutOfFuel
  | Invalid => Invalid
  | Raised e => Raised e
  | Found v r =>
      match skip_ws r with
      | c :: r' =>
          if (c =? 93)%N then Found [v] r'
          else if (c =? 44)%N
          then scan_map (cons v) (array_items fuel lim depth (skip_ws r'))
          else malformed lim depth
      | [] => malformed lim depth
      end
  end.
Proof. reflexivity. Qed.

Lemma object_items_S (fuel : nat) (lim : limits) (depth : nat) (s : pystr) :
  object_items (S fuel) lim depth s =
  match scanstring s with
  | None => malformed lim depth
  | Some (key, r) =>
      match skip_ws r with
      | c :: r1 =>
          if (c =? 58)%N then
            match scan_once fuel lim depth (skip_ws r1) with
            | OutOfFuel => OutOfFuel
            | Invalid => Invalid
            | Raised e => Raised e
            | Found v r2 =>
                match skip_ws r2 with
                | d :: r3 =>
                    if (d =? 125)%N then Found [(key, v)] r3
                    else if (d =? 44)%N then
                      match skip_ws r3 with
                      | q :: r4 =>
                          if (q =? 34)%N
                          then scan_map (cons (key, v))
                                        (object_items fuel lim depth r4)
                          else malformed lim depth
                      | [] => malformed lim depth
                      end
                    else malformed lim depth
                | [] => malformed lim depth
                end
            end
          else malformed lim depth
      | [] => malformed lim depth
      end
  end.
Proof. reflexivity. Qed.

(** Goals that a malformed text closes. *)
Ltac malformed_case :=
  solve [ discriminate
        | intros H; exfalso; exact (malformed_found _ _ _ _ _ H)
        | apply malformed_fuel
        | reflexivity ].

(** A successful scan leaves strictly less text. *)
Lemma scan_consumes (lim : limits) (fuel : nat) :
  (forall d s v r, scan_once fuel lim d s = Found v r ->
                   List.length r < List.length s)
  /\ (forall d s vs r, array_items fuel lim d s = Found vs r ->
                       List.length r < List.length s)
  /\ (forall d s ps r, object_items fuel lim d s = Found ps r ->
                       List.length r < List.length s).
Proof.
  induction fuel as [|fuel (IHv & IHa & IHo)].
  { repeat split; intros; discriminate. }
  repeat split.
  - intros d s v r. rewrite scan_once_S.
    destruct s as [|c s]; [discriminate|].
    destruct (c =? 34)%N.
    { destruct (scanstring s) as [[str rest]|] eqn:E; [|malformed_case].
      intros [= <- <-]. apply scanstring_length in E. simpl. lia. }
    destruct (c =? 123)%N.
    { destruct d as [|d]; [discriminate|].
      pose proof (skip_ws_length s) as Hw.
      destruct (skip_ws s) as [|q r']; [malformed_case|].
      destruct (q =? 125)%N; [intros [= <- <-]; simpl in *; lia|].
      destruct (q =? 34)%N; [|malformed_case].
      intros H. apply scan_map_found in H as (ps & H & _).
      apply IHo in H. simpl in *. lia. }
    destruct (c =? 91)%N.
    { destruct d as [|d]; [discriminate|].
      pose proof (skip_ws_length s) as Hw.
      destruct (skip_ws s) as [|q r']; [discriminate|].
      destruct (q =? 93)%N; [intros [= <- <-]; simpl in *; lia|].
      intros H. apply scan_map_found in H as (ps & H & _).
      apply IHa in H. simpl in *. lia. }
    repeat
      match goal with
      | |- match strip_prefix ?p ?t with _ => _ end = _ -> _ =>
          let E := fresh "E" in
          destruct (strip_prefix p t) eqn:E;
          [apply strip_prefix_length in E; intros H;
           try apply constant_found in H; try injection H as <- <-;
           subst; rewrite E; simpl; lia|clear E]
      | |- match scan_number ?l ?t with _ => _ end = _ -> _ =>
          let E := fresh "E" in
          destruct (scan_number l t) eqn:E;
          [clear E|clear E|discriminate
          |apply scan_number_length in E; intros [= <- <-]; exact E]
      end; discriminate.
  - intros d s vs r. rewrite array_items_S.
    destruct (scan_once fuel lim d s) as [| |e|v r0] eqn:E; try discriminate.
    apply IHv in E. pose proof (skip_ws_length r0) as Hw.
    destruct (skip_ws r0) as [|c r']; [malformed_case|].
    destruct (c =? 93)%N; [intros [= <- <-]; simpl in *; lia|].
    destruct (c =? 44)%N; [|malformed_case].
    intros H. apply scan_map_found in H as (ps & H & _).
    apply IHa in H. pose proof (skip_ws_length r'). simpl in *. lia.
  - intros d s ps r. rewrite object_items_S.
    destruct (scanstring s) as [[key r0]|] eqn:Ek; [|malformed_case].
    apply scanstring_length in Ek. pose proof (skip_ws_length r0) as Hw0.
    destruct (skip_ws r0) as [|c r1]; [malformed_case|].
    destruct (c =? 58)%N; [|malformed_case].
    destruct (scan_once fuel lim d (skip_ws r1)) as [| |e|v r2] eqn:E;
      try discriminate.
    apply IHv in E. pose proof (skip_ws_length r1) as Hw1.
    pose proof (skip_ws_length r2) as Hw2.
    destruct (skip_ws r2) as [|c2 r3]; [malformed_case|].
    destruct (c2 =? 125)%N; [intros [= <- <-]; simpl in *; lia|].
    destruct (c2 =? 44)%N; [|malformed_case].
    pose proof (skip_ws_length r3) as Hw3.
    destruct (skip_ws r3) as [|q r4]; [malformed_case|].
    destruct (q =? 34)%N; [|malformed_case].
    intros H. apply scan_map_found in H as (ps' & H & _).
    apply IHo in H. simpl in *. lia.
Qed.

(** With a bound above twice the length of the text, the scanners never
    stop for want of fuel. *)
Lemma scan_total (lim : limits) (fuel : nat) :
  (forall d s, 2 * List.length s < fuel ->
               scan_once fuel lim d s <> OutOfFuel)
  /\ (forall d s, 2 * List.length s + 1 < fuel ->
                  array_items fuel lim d s <> OutOfFuel)
  /\ (forall d s, 2 * List.length s < fuel ->
                  object_items fuel lim d s <> OutOfFuel).
Proof.
  induction fuel as [|fuel (IHv & IHa & IHo)].
  { repeat split; intros; lia. }
  destruct (scan_consumes lim fuel) as (Cv & _ & _).
  repeat split.
  - intros d s Hs. rewrite scan_once_S.
    destruct s as [|c s]; [discriminate|]. simpl in Hs.
    destruct (c =? 34)%N.
    { destruct (scanstring s) as [[? ?]|]; malformed_case. }
    destruct (c =? 123)%N.
    { destruct d as [|d]; [discriminate|].
      pose proof (skip_ws_length s) as Hw.
      destruct (skip_ws s) as [|q r']; [malformed_case|].
      destruct (q =? 125)%N; [discriminate|].
      destruct (q =? 34)%N; [|malformed_case].
      rewrite scan_map_fuel. apply IHo. simpl in *. lia. }
    destruct (c =? 91)%N.
    { destruct d as [|d]; [discriminate|].
      pose proof (skip_ws_length s) as Hw.
      destruct (skip_ws s) as [|q r']; [discriminate|].
      destruct (q =? 93)%N; [discriminate|].
      rewrite scan_map_fuel. apply IHa. simpl in *. lia. }
    repeat
      match goal with
      | |- match strip_prefix ?p ?t with _ => _ end <> _ =>
          destruct (strip_prefix p t); [first [discriminate
                                              |apply constant_fuel]|]
      | |- match scan_number ?l ?t with _ => _ end <> _ =>
          destruct (scan_number l t); [|
                                        |discriminate|discriminate]
      end; discriminate.
  - intros d s Hs. rewrite array_items_S.
    pose proof (IHv d s) as Hv.
    destruct (scan_once fuel lim d s) as [| |e|v r0] eqn:E;
      [exfalso; apply Hv; [lia|reflexivity]|discriminate|discriminate|].
    apply Cv in E. pose proof (skip_ws_length r0) as Hw.
    destruct (skip_ws r0) as [|c r']; [malformed_case|].
    destruct (c =? 93)%N; [discriminate|].
    destruct (c =? 44)%N; [|malformed_case].
    rewrite scan_map_fuel. apply IHa.
    pose proof (skip_ws_length r'). simpl in *. lia.
  - intros d s Hs. rewrite object_items_S.
    destruct (scanstring s) as [[key r0]|] eqn:Ek; [|malformed_case].
    apply scanstring_length in Ek. pose proof (skip_ws_length r0) as Hw0.
    destruct (skip_ws r0) as [|c r1]; [malformed_case|].
    destruct (c =? 58)%N; [|malformed_case].
    pose proof (skip_ws_length r1) as Hw1.
    pose proof (IHv d (skip_ws r1)) as Hv.
    destruct (scan_once fuel lim d (skip_ws r1)) as [| |e|v r2] eqn:E;
      [exfalso; apply Hv; [simpl in *; lia|reflexivity]
      |discriminate|discriminate|].
    apply Cv in E. pose proof (skip_ws_length r2) as Hw2.
    destruct (skip_ws r2) as [|c2 r3]; [malformed_case|].
    destruct (c2 =? 125)%N; [discriminate|].
    destruct (c2 =? 44)%N; [|malformed_case].
    pose proof (skip_ws_length r3) as Hw3.
    destruct (skip_ws r3) as [|q r4]; [malformed_case|].
    destruct (q =? 34)%N; [|malformed_case].
    rewrite scan_map_fuel. apply IHo. simpl in *. lia.
Qed.

(** More fuel does not change an answer that was not [OutOfFuel]. *)
Lemma scan_mono (lim : limits) (fuel : nat) :
  (forall d s, scan_once fuel lim d s <> OutOfFuel ->
               scan_once (S fuel) lim d s = scan_once fuel lim d s)
  /\ (forall d s, array_items fuel lim d s <> OutOfFuel ->
                  array_items (S fuel) lim d s = array_items fuel lim d s)
  /\ (forall d s, object_items fuel lim d s <> OutOfFuel ->
                  object_items (S fuel) lim d s = object_items fuel lim d s).
Proof.
  induction fuel as [|fuel (IHv & IHa & IHo)].
  { repeat split; intros d s H; exfalso; apply H; reflexivity. }
  repeat split.
  - intros d s. rewrite (scan_once_S (S fuel)), (scan_once_S fuel).
    destruct s as [|c s]; [reflexivity|].
    destruct (c =? 34)%N; [reflexivity|].
    destruct (c =? 123)%N.
    { destruct d as [|d]; [reflexivity|].
      destruct (skip_ws s) as [|q r']; [reflexivity|].
      destruct (q =? 125)%N; [reflexivity|].
      destruct (q =? 34)%N; [|reflexivity].
      intros H. rewrite scan_map_fuel in H. now rewrite IHo. }
    destruct (c =? 91)%N; [|reflexivity].
    destruct d as [|d]; [reflexivity|].
    destruct (skip_ws s) as [|q r']; [reflexivity|].
    destruct (q =? 93)%N; [reflexivity|].
    intros H. rewrite scan_map_fuel in H. now rewrite IHa.
  - intros d s. rewrite (array_items_S (S fuel)), (array_items_S fuel).
    destruct (scan_once fuel lim d s) as [| |e|v r0] eqn:E.
    + intros H. exfalso. apply H. reflexivity.
    + rewrite IHv, E by (rewrite E; discriminate). reflexivity.
    + rewrite IHv, E by (rewrite E; discriminate). reflexivity.
    + rewrite IHv, E by (rewrite E; discriminate).
      destruct (skip_ws r0) as [|c r']; [reflexivity|].
      destruct (c =? 93)%N; [reflexivity|].
      destruct (c =? 44)%N; [|reflexivity].
      intros H. rewrite scan_map_fuel in H. now rewrite IHa.
  - intros d s. rewrite (object_items_S (S fuel)), (object_items_S fuel).
    destruct (scanstring s) as [[key r0]|]; [|reflexivity].
    destruct (skip_ws r0) as [|c r1]; [reflexivity|].
    destruct (c =? 58)%N; [|reflexivity].
    destruct (scan_once fuel lim d (skip_ws r1)) as [| |e|v r2] eqn:E.
    + intros H. exfalso. apply H. reflexivity.
    + rewrite IHv, E by (rewrite E; discriminate). reflexivity.
    + rewrite IHv, E by (rewrite E; discriminate). reflexivity.
    + rewrite IHv, E by (rewrite E; discriminate).
      destruct (skip_ws r2) as [|c2 r3]; [reflexivity|].
      destruct (c2 =? 125)%N; [reflexivity|].
      destruct (c2 =? 44)%N; [|reflexivity].
      destruct (skip_ws r3) as [|q r4]; [reflexivity|].
      destruct (q =? 34)%N; [|reflexivity].
      intros H. rewrite scan_map_fuel in H. now rewrite IHo.
Qed.

(** [decode] gives its scanner enough fuel: where it answers
    [JSONDecodeError], the scanner has given up on the text. *)
Lemma decode_fuel_suffices (lim : limits) (d : nat) (s : pystr) :
  scan_once (S (2 * List.length s)) lim d (skip_ws s) <> OutOfFuel.
Proof.
  destruct (scan_total lim (S (2 * List.length s))) as (T & _).
  apply T. pose proof (skip_ws_length s). lia.
Qed.

(** An answer stays the same at every larger bound. *)
Lemma scan_once_le (lim : limits) (d f f' : nat) (s : pystr) :
  f <= f' -> scan_once f lim d s <> OutOfFuel ->
  scan_once f' lim d s = scan_once f lim d s.
Proof.
  induction 1 as [|f' Hle IH]; [reflexivity|].
  intros H. specialize (IH H).
  destruct (scan_mono lim f') as (Hv & _ & _).
  rewrite Hv; [exact IH|]. now rewrite IH.
Qed.

(* ================================================================= *)
(** ** Strings survive encoding and scanning *)

Section Tokens.

Local Open Scope N_scope.

Lemma hexval_hexdigit (d : N) : d < 16 -> hexval (hexdigit d) = Some d.
Proof.
  intros H.
  assert (C : In d [0; 1; 2; 3; 4; 5; 6; 7; 8; 9; 10; 11; 12; 13; 14; 15])
    by (simpl; lia).
  simpl in C.
  repeat (destruct C as [<-|C]; [reflexivity|]). contradiction.
Qed.

Lemma hex4_escape (n : N) :
  n < 65536 ->
  hex4 (hexdigit (n / 4096)) (hexdigit ((n / 256) mod 16))
       (hexdigit ((n / 16) mod 16)) (hexdigit (n mod 16)) = Some n.
Proof.
  intros H. unfold hex4.
  rewrite !hexval_hexdigit
    by (zify; Z.to_euclidean_division_equations; lia).
  f_equal. zify; Z.to_euclidean_division_equations; lia.
Qed.

(** The scan of an escape written with [u] and four hexadecimal digits. *)
Lemma scanstring_u (h1 h2 h3 h4 : N) (r2 : pystr) :
  scanstring (92 :: 117 :: h1 :: h2 :: h3 :: h4 :: r2) =
  match hex4 h1 h2 h3 h4 with
  | None => None
  | Some uni =>
      if Codec.is_high_surrogate uni then
        match r2 with
        | b :: v :: g1 :: g2 :: g3 :: g4 :: r3 =>
            if (b =? 92) && (v =? 117) then
              match hex4 g1 g2 g3 g4 with
              | None => None
              | Some uni2 =>
                  if Codec.is_low_surrogate uni2
                  then more (Codec.join_surrogates uni uni2) (scanstring r3)
                  else more uni (scanstring r2)
              end
            else more uni (scanstring r2)
        | _ => more uni (scanstring r2)
        end
      else more uni (scanstring r2)
  end.
Proof. reflexivity. Qed.

Lemma scanstring_plain (c : N) (r : pystr) :
  c <> 34 -> c <> 92 -> 32 <= c ->
  scanstring (c :: r) = more c (scanstring r).
Proof.
  intros H1 H2 H3. simpl.
  apply N.eqb_neq in H1, H2. rewrite H1, H2.
  assert (H4 : (c <=? 31) = false) by (apply N.leb_gt; lia).
  now rewrite H4.
Qed.

Lemma scanstring_escape_u (n : N) (r : pystr) :
  n < 65536 -> Codec.is_high_surrogate n = false ->
  scanstring (escape_u n ++ r) = more n (scanstring r).
Proof.
  intros Hn Hs. unfold escape_u. simpl app.
  now rewrite scanstring_u, hex4_escape, Hs.
Qed.

Lemma scanstring_escape_pair (c : N) (r : pystr) :
  65536 <= c -> c <= 1114111 ->
  scanstring (escape_u (55296 + ((c - 65536) / 1024) mod 1024)
              ++ escape_u (56320 + (c - 65536) mod 1024) ++ r)
  = more c (scanstring r).
Proof.
  intros Hlo Hhi.
  set (hi := 55296 + ((c - 65536) / 1024) mod 1024).
  set (lo := 56320 + (c - 65536) mod 1024).
  assert (Bhi : 55296 <= hi <= 56319)
    by (subst hi; zify; Z.to_euclidean_division_equations; lia).
  assert (Blo : 56320 <= lo <= 57343)
    by (subst lo; zify; Z.to_euclidean_division_equations; lia).
  assert (J : Codec.join_surrogates hi lo = c).
  { unfold Codec.join_surrogates. subst hi lo.
    zify; Z.to_euclidean_division_equations; lia. }
  assert (Shi : Codec.is_high_surrogate hi = true).
  { unfold Codec.is_high_surrogate, Codec.in_range.
    apply andb_true_iff; split; apply N.leb_le; lia. }
  assert (Slo : Codec.is_low_surrogate lo = true).
  { unfold Codec.is_low_surrogate, Codec.in_range.
    apply andb_true_iff; split; apply N.leb_le; lia. }
  unfold escape_u at 1. simpl app. rewrite scanstring_u.
  rewrite hex4_escape, Shi by lia.
  unfold escape_u. simpl app. cbv iota beta.
  rewrite !N.eqb_refl. simpl andb. cbv iota.
  now rewrite hex4_escape, Slo, J by lia.
Qed.

Lemma scanstring_escape_char (c : N) (r : pystr) :
  is_scalar c = true ->
  scanstring (escape_char c ++ r) = more c (scanstring r).
Proof.
  intros Hc. unfold escape_char.
  repeat match goal with
         | |- context [if (c =? ?k) then _ else _] =>
             destruct (N.eqb_spec c k) as [->|?]; [reflexivity|]
         end.
  unfold is_scalar in Hc.
  destruct (N.leb_spec 32 c); destruct (N.leb_spec c 126); simpl andb; cbv iota.
  1:{ apply scanstring_plain; assumption. }
  all: destruct (N.ltb_spec c 65536).
  all: try (apply scanstring_escape_u; [assumption|];
            unfold Codec.is_high_surrogate, Codec.in_range;
            destruct (N.ltb_spec c 55296); simpl in Hc;
            [apply andb_false_iff; left; apply N.leb_gt; lia|];
            destruct (N.ltb_spec 57343 c); simpl in Hc; [|discriminate];
            apply andb_false_iff; right; apply N.leb_gt; lia).
  all: rewrite <- app_assoc; apply scanstring_escape_pair; [assumption|].
  all: destruct (N.ltb_spec c 55296); [lia|]; simpl in Hc.
  all: apply andb_true_iff in Hc as [_ Hc]; apply N.leb_le in Hc; exact Hc.
Qed.

(** [scanstring] takes back what [encode_string] wrote after the
    opening quote. *)
Lemma scanstring_encode (s rest : pystr) :
  is_text s = true ->
  scanstring (flat_map escape_char s ++ 34 :: rest) = Some (s, rest).
Proof.
  induction s as [|c s IH]; intros Hs; [reflexivity|].
  simpl in Hs. apply andb_true_iff in Hs as [Hc Hs].
  simpl flat_map. rewrite <- app_assoc, scanstring_escape_char by exact Hc.
  now rewrite IH.
Qed.

(** ** Integers survive encoding and scanning *)

#[local] Arguments N.add : simpl never.
#[local] Arguments N.mul : simpl never.
#[local] Arguments N.sub : simpl never.
#[local] Arguments N.div : simpl never.
#[local] Arguments N.modulo : simpl never.
#[local] Arguments N.pow : simpl never.
#[local] Arguments N.leb : simpl never.
#[local] Arguments N.ltb : simpl never.
#[local] Arguments N.eqb : simpl never.

Lemma digits_from_acc (fuel : nat) (n : N) (acc : pystr) :
  digits_from fuel n acc = digits_from fuel n [] ++ acc.
Proof.
  revert n acc; induction fuel as [|fuel IH]; intros n acc; [reflexivity|].
  simpl. destruct (n <? 10); [reflexivity|].
  rewrite IH, (IH _ [_]), <- app_assoc. reflexivity.
Qed.

(** With enough fuel the digits of [n] are all there: they are digits,
    they spell [n], and the first is not a zero unless [n] is zero. *)
Lemma digits_from_spec (fuel : nat) (n : N) :
  n < 2 ^ N.of_nat fuel ->
  forallb is_digit (digits_from fuel n []) = true
  /\ nat_of_digits (digits_from fuel n []) = n
  /\ (0 < n -> exists d ds, digits_from fuel n [] = d :: ds /\ d <> 48).
Proof.
  revert n; induction fuel as [|fuel IH]; intros n Hn.
  { simpl in Hn. assert (n = 0) by lia. subst. repeat split. lia. }
  assert (Hpow : 2 ^ N.of_nat (S fuel) = 2 * 2 ^ N.of_nat fuel).
  { rewrite Nat2N.inj_succ. apply N.pow_succ_r'. }
  rewrite Hpow in Hn. clear Hpow.
  generalize dependent (2 ^ N.of_nat fuel). intros P IH Hn.
  simpl digits_from. destruct (N.ltb_spec n 10) as [Hlt|Hge].
  - assert (Hm : n mod 10 = n) by (apply N.mod_small; exact Hlt).
    rewrite Hm. repeat split.
    + simpl. unfold is_digit.
      replace (48 <=? 48 + n) with true by (symmetry; apply N.leb_le; lia).
      replace (48 + n <=? 57) with true by (symmetry; apply N.leb_le; lia).
      reflexivity.
    + unfold nat_of_digits. simpl. lia.
    + intros Hpos. exists (48 + n), []. split; [reflexivity|lia].
  - assert (Hq : n / 10 < P)
      by (zify; Z.to_euclidean_division_equations; lia).
    destruct (IH _ Hq) as (Hd & Hv & Hh).
    rewrite digits_from_acc. repeat split.
    + rewrite forallb_app, Hd. simpl. unfold is_digit.
      replace (48 <=? 48 + n mod 10) with true
        by (symmetry; apply N.leb_le;
            zify; Z.to_euclidean_division_equations; lia).
      replace (48 + n mod 10 <=? 57) with true
        by (symmetry; apply N.leb_le;
            zify; Z.to_euclidean_division_equations; lia).
      reflexivity.
    + unfold nat_of_digits in *. rewrite fold_left_app, Hv. simpl.
      zify; Z.to_euclidean_division_equations; lia.
    + intros _. destruct Hh as (d & ds & E & Hd0).
      { zify; Z.to_euclidean_division_equations; lia. }
      rewrite E. exists d, (ds ++ [48 + n mod 10]).
      split; [reflexivity|exact Hd0].
Qed.

Lemma str_of_N_spec (n : N) :
  forallb is_digit (str_of_N n) = true
  /\ nat_of_digits (str_of_N n) = n
  /\ (0 < n -> exists d ds, str_of_N n = d :: ds /\ d <> 48).
Proof.
  apply digits_from_spec.
  rewrite Nat2N.inj_succ, N2Nat.id.
  destruct n as [|p]; [reflexivity|].
  apply N.log2_spec. reflexivity.
Qed.

Lemma span_digits_all (ds rest : pystr) :
  forallb is_digit ds = true -> number_end rest = true ->
  span_digits (ds ++ rest) = (ds, rest).
Proof.
  intros Hd Hr. induction ds as [|d ds IH]; simpl.
  - destruct rest as [|c rest]; [reflexivity|]. simpl in *.
    destruct (is_digit c); [discriminate|reflexivity].
  - simpl in Hd. apply andb_true_iff in Hd as [Hd1 Hd2].
    now rewrite Hd1, IH.
Qed.

Lemma match_frac_end (rest : pystr) :
  number_end rest = true -> match_frac rest = None.
Proof.
  destruct rest as [|c rest]; [reflexivity|]. simpl.
  destruct (c =? 46); [|reflexivity].
  rewrite orb_true_r. discriminate.
Qed.

Lemma match_exp_end (rest : pystr) :
  number_end rest = true -> match_exp rest = None.
Proof.
  destruct rest as [|c rest]; [reflexivity|]. simpl.
  destruct (c =? 101); [rewrite orb_true_r; discriminate|].
  destruct (c =? 69); [rewrite orb_true_r; discriminate|reflexivity].
Qed.

Lemma is_digit_range (d : N) : is_digit d = true -> 48 <= d <= 57.
Proof.
  unfold is_digit. intros H. apply andb_true_iff in H as [H1 H2].
  apply N.leb_le in H1, H2. lia.
Qed.

Lemma str_of_Z_head (z : Z) :
  exists c t, str_of_Z z = c :: t /\ (c = 45 \/ is_digit c = true).
Proof.
  destruct z as [|p|p].
  - exists 48, []. split; [reflexivity|now right].
  - destruct (str_of_N_spec (Npos p)) as (Hd & _ & Hh).
    destruct (Hh eq_refl) as (d & ds & E & _).
    change (str_of_Z (Zpos p)) with (str_of_N (Npos p)).
    rewrite E in *. simpl in Hd. apply andb_true_iff in Hd as [Hd _].
    exists d, ds. split; [reflexivity|now right].
  - exists 45, (str_of_N (Npos p)). split; [reflexivity|now left].
Qed.

Lemma count_digits_str_of_Z (z : Z) : count_digits (str_of_Z z) = int_digits z.
Proof.
  destruct z as [|p|p]; [reflexivity| |].
  - change (str_of_Z (Zpos p)) with (str_of_N (Npos p)).
    change (int_digits (Zpos p))
      with (N.of_nat (List.length (str_of_N (Npos p)))).
    destruct (str_of_N_spec (Npos p)) as (Hd & _ & Hh).
    destruct (Hh eq_refl) as (d & ds & E & _). rewrite E in *.
    simpl in Hd. apply andb_true_iff in Hd as [Hd _].
    apply is_digit_range in Hd. unfold count_digits.
    replace (d =? 45) with false by (symmetry; apply N.eqb_neq; lia).
    reflexivity.
  - change (str_of_Z (Zneg p)) with (45 :: str_of_N (Npos p)).
    unfold count_digits. rewrite N.eqb_refl. reflexivity.
Qed.

Lemma match_number_str_of_Z (z : Z) (rest : pystr) :
  number_end rest = true ->
  match_number (str_of_Z z ++ rest) = Some (str_of_Z z, [], [], rest)
  /\ parse_int (str_of_Z z) = z.
Proof.
  intros Hr.
  assert (Pos : forall n sign,
             0 < n ->
             (fun s1 =>
                match s1 with
                | d :: r =>
                    if d =? 48 then Some (sign ++ [d], r)
                    else if is_digit d
                    then let (ds, r') := span_digits r in
                         Some (sign ++ d :: ds, r')
                    else None
                | [] => None
                end) (str_of_N n ++ rest)
             = Some (sign ++ str_of_N n, rest)
             /\ exists d ds, str_of_N n = d :: ds /\ d <> 45).
  { intros n sign Hn. destruct (str_of_N_spec n) as (Hd & _ & Hh).
    destruct (Hh Hn) as (d & ds & E & Hd0). rewrite E in *.
    simpl in Hd. apply andb_true_iff in Hd as [Hd1 Hd2].
    split.
    - simpl. apply N.eqb_neq in Hd0. rewrite Hd0, Hd1.
      now rewrite span_digits_all.
    - exists d, ds. split; [reflexivity|].
      apply is_digit_range in Hd1. lia. }
  unfold match_number.
  assert (Hi : match_integer (str_of_Z z ++ rest) = Some (str_of_Z z, rest)
               /\ parse_int (str_of_Z z) = z).
  { destruct z as [|p|p].
    - split; reflexivity.
    - destruct (Pos (Npos p) [] eq_refl) as (E & d & ds & Ed & Hd).
      change (str_of_Z (Zpos p)) with (str_of_N (Npos p)).
      destruct (str_of_N_spec (Npos p)) as (_ & Hv & _).
      split.
      + unfold match_integer. rewrite Ed in *. simpl app in *.
        cbv beta iota in *.
        apply N.eqb_neq in Hd. rewrite Hd. exact E.
      + unfold parse_int. rewrite Ed in *.
        apply N.eqb_neq in Hd. rewrite Hd, Hv. reflexivity.
    - destruct (Pos (Npos p) [45] eq_refl) as (E & _).
      destruct (str_of_N_spec (Npos p)) as (_ & Hv & _).
      change (str_of_Z (Zneg p)) with (45 :: str_of_N (Npos p)).
      split.
      + unfold match_integer. simpl app. cbv beta iota.
        rewrite N.eqb_refl. exact E.
      + unfold parse_int. rewrite N.eqb_refl, Hv. reflexivity. }
  destruct Hi as [Hi Hp].
  now rewrite Hi, match_frac_end, match_exp_end.
Qed.

(** An integer that [int] takes is read back from its numeral. *)
Lemma scan_number_str_of_Z (lim : limits) (z : Z) (rest : pystr) :
  number_end rest = true ->
  too_many_digits lim (int_digits z) = false ->
  scan_number lim (str_of_Z z ++ rest) = Found (PInt z) rest.
Proof.
  intros Hr Hd. destruct (match_number_str_of_Z z rest Hr) as [Hm Hp].
  unfold scan_number. now rewrite Hm, count_digits_str_of_Z, Hd, Hp.
Qed.

(** *** A numeral is matched the same way whatever follows it, unless
    what follows could continue it. *)

Lemma span_digits_more (s ds r rest : pystr) :
  span_digits s = (ds, r) -> (r = [] -> number_end rest = true) ->
  span_digits (s ++ rest) = (ds, r ++ rest).
Proof.
  revert ds r; induction s as [|c s IH]; intros ds r.
  - intros [= <- <-] Hr. specialize (Hr eq_refl).
    destruct rest as [|c rest]; [reflexivity|]. simpl in *.
    destruct (is_digit c); [discriminate|reflexivity].
  - simpl. destruct (is_digit c).
    + destruct (span_digits s) as [ds' r'] eqn:E. intros [= <- <-] Hr.
      now rewrite (IH ds' r' eq_refl Hr).
    + now intros [= <- <-] _.
Qed.

Lemma match_integer_more (s i r rest : pystr) :
  match_integer s = Some (i, r) -> (r = [] -> number_end rest = true) ->
  match_integer (s ++ rest) = Some (i, r ++ rest).
Proof.
  assert (Body : forall sign s1,
             match s1 with
             | d :: r0 =>
                 if d =? 48 then Some (sign ++ [d], r0)
                 else if is_digit d
                 then let (ds, r') := span_digits r0 in
                      Some (sign ++ d :: ds, r')
                 else None
             | [] => None
             end = Some (i, r) ->
             (r = [] -> number_end rest = true) ->
             match s1 ++ rest with
             | d :: r0 =>
                 if d =? 48 then Some (sign ++ [d], r0)
                 else if is_digit d
                 then let (ds, r') := span_digits r0 in
                      Some (sign ++ d :: ds, r')
                 else None
             | [] => None
             end = Some (i, r ++ rest)).
  { intros sign [|d r0]; [discriminate|]. simpl app; cbv beta iota.
    destruct (d =? 48); [now intros [= <- <-]|].
    destruct (is_digit d); [|discriminate].
    destruct (span_digits r0) as [ds r'] eqn:E. intros [= <- <-] Hr.
    now rewrite (span_digits_more r0 ds r' rest E Hr). }
  unfold match_integer. destruct s as [|c s]; [discriminate|].
  simpl app; cbv beta iota. destruct (c =? 45).
  - apply (Body [c] s).
  - apply (Body [] (c :: s)).
Qed.

Lemma match_integer_head (s i r : pystr) :
  match_integer s = Some (i, r) ->
  exists c t, s = c :: t /\ (c = 45 \/ is_digit c = true).
Proof.
  unfold match_integer. destruct s as [|c s]; [discriminate|].
  intros H. exists c, s. split; [reflexivity|].
  destruct (N.eqb_spec c 45) as [->|Hc]; [now left|right].
  destruct (N.eqb_spec c 48) as [->|Hz]; [reflexivity|].
  destruct (is_digit c); [reflexivity|discriminate].
Qed.

Lemma match_frac_more (s f r rest : pystr) :
  match_frac s = Some (f, r) -> (r = [] -> number_end rest = true) ->
  match_frac (s ++ rest) = Some (f, r ++ rest).
Proof.
  unfold match_frac. destruct s as [|c s]; [discriminate|].
  simpl app; cbv beta iota.
  destruct (c =? 46); [|discriminate].
  destruct (span_digits s) as [ds r'] eqn:E.
  destruct ds as [|d ds]; [discriminate|]. intros [= <- <-] Hr.
  now rewrite (span_digits_more s (d :: ds) r' rest E Hr).
Qed.

Lemma match_exp_more (s e r rest : pystr) :
  match_exp s = Some (e, r) -> (r = [] -> number_end rest = true) ->
  match_exp (s ++ rest) = Some (e, r ++ rest).
Proof.
  unfold match_exp. destruct s as [|c s]; [discriminate|].
  simpl app; cbv beta iota.
  destruct ((c =? 101) || (c =? 69)); [|discriminate].
  destruct s as [|c' s']; [discriminate|]. simpl app; cbv beta iota.
  destruct ((c' =? 43) || (c' =? 45)).
  - destruct (span_digits s') as [ds r'] eqn:E.
    destruct ds as [|d ds]; [discriminate|]. intros [= <- <-] Hr.
    now rewrite (span_digits_more s' (d :: ds) r' rest E Hr).
  - destruct (span_digits (c' :: s')) as [ds r'] eqn:E.
    destruct ds as [|d ds]; [discriminate|]. intros [= <- <-] Hr.
    change (c' :: s' ++ rest) with ((c' :: s') ++ rest).
    now rewrite (span_digits_more (c' :: s') (d :: ds) r' rest E Hr).
Qed.

Lemma match_exp_head (s e r : pystr) :
  match_exp s = Some (e, r) ->
  exists c t, s = c :: t /\ (c = 101 \/ c = 69).
Proof.
  unfold match_exp. destruct s as [|c s]; [discriminate|].
  destruct (N.eqb_spec c 101) as [->|H1]; [intros _; eauto|].
  destruct (N.eqb_spec c 69) as [->|H2]; [intros _; eauto|].
  discriminate.
Qed.

Lemma match_frac_head (s f r : pystr) :
  match_frac s = Some (f, r) -> exists t, s = 46 :: t.
Proof.
  unfold match_frac. destruct s as [|c s]; [discriminate|].
  destruct (N.eqb_spec c 46) as [->|H1]; [intros _; eauto|discriminate].
Qed.

(** A numeral that is matched to its end is matched the same way in
    front of what cannot continue a number. *)
Lemma match_number_more (s i f e rest : pystr) :
  match_number s = Some (i, f, e, []) -> number_end rest = true ->
  match_number (s ++ rest) = Some (i, f, e, rest).
Proof.
  unfold match_number. intros H Hr.
  destruct (match_integer s) as [[i0 r0]|] eqn:Ei; [|discriminate].
  destruct (match_frac r0) as [[f0 r1]|] eqn:Ef.
  - destruct (match_frac_head r0 f0 r1 Ef) as (t0 & E0).
    rewrite (match_integer_more s i0 r0 rest Ei)
      by (rewrite E0; discriminate).
    destruct (match_exp r1) as [[e0 r2]|] eqn:Ee.
    + destruct (match_exp_head r1 e0 r2 Ee) as (c1 & t1 & E1 & _).
      rewrite (match_frac_more r0 f0 r1 rest Ef)
        by (rewrite E1; discriminate).
      injection H as <- <- <- ->.
      now rewrite (match_exp_more r1 e0 [] rest Ee (fun _ => Hr)).
    + injection H as <- <- <- ->.
      rewrite (match_frac_more r0 f0 [] rest Ef (fun _ => Hr)).
      simpl app. now rewrite match_exp_end.
  - destruct (match_exp r0) as [[e0 r2]|] eqn:Ee.
    + destruct (match_exp_head r0 e0 r2 Ee) as (c1 & t1 & E1 & Hc1).
      rewrite (match_integer_more s i0 r0 rest Ei)
        by (rewrite E1; discriminate).
      injection H as <- <- <- ->.
      assert (Hf : match_frac (r0 ++ rest) = None).
      { rewrite E1. simpl app. unfold match_frac.
        replace (c1 =? 46) with false
          by (symmetry; apply N.eqb_neq; lia).
        reflexivity. }
      now rewrite Hf, (match_exp_more r0 e0 [] rest Ee (fun _ => Hr)).
    + injection H as <- <- <- ->.
      rewrite (match_integer_more s i0 [] rest Ei (fun _ => Hr)).
      simpl app. now rewrite match_frac_end, match_exp_end.
Qed.

Lemma float_eqb_eq (x y : spec_float) : float_eqb x y = true -> x = y.
Proof.
  destruct x as [s|s| |s m e], y as [s'|s'| |s' m' e']; simpl;
    try discriminate; try reflexivity.
  - intros H. apply eqb_prop in H. now subst.
  - intros H. apply eqb_prop in H. now subst.
  - intros H. apply andb_true_iff in H as [H He].
    apply andb_true_iff in H as [Hs Hm].
    apply eqb_prop in Hs. apply Pos.eqb_eq in Hm. apply Z.eqb_eq in He.
    now subst.
Qed.

(** A finite double that reads back is read back in front of what
    cannot continue a number; its numeral starts with a sign or a
    digit. *)
Lemma scan_number_repr (lim : limits) (x : spec_float) (rest : pystr) :
  is_finite x = true -> reads_back x = true -> number_end rest = true ->
  scan_number lim (float_repr x ++ rest) = Found (PFloat x) rest
  /\ exists c t, float_repr x = c :: t /\ (c = 45 \/ is_digit c = true).
Proof.
  unfold reads_back. intros Hf Hb Hr. rewrite Hf in Hb. simpl in Hb.
  destruct (match_number (float_repr x)) as [[[[i f] e] r]|] eqn:E;
    [|discriminate].
  destruct r; [|discriminate].
  apply andb_true_iff in Hb as [Hfe Hx]. apply float_eqb_eq in Hx.
  split.
  - unfold scan_number.
    rewrite (match_number_more (float_repr x) i f e rest E Hr).
    destruct f, e; try discriminate; now rewrite Hx.
  - unfold match_number in E.
    destruct (match_integer (float_repr x)) as [[i0 r0]|] eqn:Ei;
      [|discriminate].
    exact (match_integer_head _ _ _ Ei).
Qed.

End Tokens.

(* ================================================================= *)
(** ** [json.loads] undoes [json.dumps] *)

(** Induction over values that reaches inside lists and dictionaries. *)
Lemma pyval_nested_ind (P : pyval -> Prop) :
  P PNone ->
  (forall b, P (PBool b)) ->
  (forall z, P (PInt z)) ->
  (forall x, P (PFloat x)) ->
  (forall s, P (PStr s)) ->
  (forall b, P (PBytes b)) ->
  (forall b, P (PByteArray b)) ->
  (forall l, Forall P l -> P (PList l)) ->
  (forall d, Forall (fun kv => P (snd kv)) d -> P (PDict d)) ->
  (forall n, P (PFlow n)) ->
  (forall c, P (PObject c)) ->
  forall v, P v.
Proof.
  intros HNone HBool HInt HFloat HStr HBytes HByteArray HList HDict HFlow HObj.
  fix IH 1. intros [ |b|z|x|s|b|b|l|d|n|c].
  - exact HNone.
  - apply HBool.
  - apply HInt.
  - apply HFloat.
  - apply HStr.
  - apply HBytes.
  - apply HByteArray.
  - apply HList. induction l as [|x l IHl]; constructor; [apply IH|exact IHl].
  - apply HDict.
    induction d as [|[k x] d IHd]; constructor; [apply IH|exact IHd].
  - apply HFlow.
  - apply HObj.
Qed.

Lemma skip_ws_value_start (text rest : pystr) :
  value_start text -> skip_ws (text ++ rest) = text ++ rest.
Proof.
  intros (c & t & -> & Hw & _). simpl. now rewrite Hw.
Qed.

Lemma scans_to_intro (lim : limits) (d f0 : nat) (v : pyval)
      (s rest : pystr) :
  scan_once f0 lim d s = Found v rest -> scans_to lim d v s rest.
Proof.
  intros H. exists f0. intros f Hf.
  rewrite (scan_once_le lim d f0 f s Hf); [exact H|]. rewrite H. discriminate.
Qed.

Lemma strip_prefix_head (x : N) (p : pystr) (c : N) (s : pystr) :
  x <> c -> strip_prefix (x :: p) (c :: s) = None.
Proof.
  intros H. cbn [strip_prefix]. apply N.eqb_neq in H. now rewrite H.
Qed.

(** A text that starts like a numeral starts a value. *)
Lemma numeral_value_start (text : pystr) :
  (exists c t, text = c :: t /\ (c = 45%N \/ is_digit c = true)) ->
  value_start text.
Proof.
  intros (c & t & E & Hc). exists c, t. split; [exact E|].
  assert (c = 45%N \/ (48 <= c <= 57)%N) as Hr.
  { destruct Hc as [Hc|Hc]; [now left|right; now apply is_digit_range]. }
  split; [|lia]. unfold is_ws.
  repeat (apply orb_false_iff; split); apply N.eqb_neq; lia.
Qed.

(** What the number branch reads, [scan_once] reads. *)
Lemma scan_numeral (lim : limits) (d : nat) (text rest : pystr)
      (v : pyval) :
  (exists c t, text = c :: t /\ (c = 45%N \/ is_digit c = true)) ->
  scan_number lim (text ++ rest) = Found v rest ->
  scans_to lim d v (text ++ rest) rest.
Proof.
  intros (c & t & E & Hc) Hn. apply (scans_to_intro lim d 1).
  rewrite scan_once_S. rewrite E in *. simpl app in *.
  assert (Hrange : c = 45%N \/ (48 <= c <= 57)%N).
  { destruct Hc as [Hc|Hc]; [now left|right; now apply is_digit_range]. }
  assert (N1 : (c =? 34)%N = false) by (apply N.eqb_neq; lia).
  assert (N2 : (c =? 123)%N = false) by (apply N.eqb_neq; lia).
  assert (N3 : (c =? 91)%N = false) by (apply N.eqb_neq; lia).
  cbv beta iota. rewrite N1, N2, N3.
  assert (P1 : strip_prefix (u "null") (c :: t ++ rest) = None)
    by (apply (strip_prefix_head 110%N (u "ull")); lia).
  assert (P2 : strip_prefix (u "true") (c :: t ++ rest) = None)
    by (apply (strip_prefix_head 116%N (u "rue")); lia).
  assert (P3 : strip_prefix (u "false") (c :: t ++ rest) = None)
    by (apply (strip_prefix_head 102%N (u "alse")); lia).
  now rewrite P1, P2, P3, Hn.
Qed.

Lemma scan_int (lim : limits) (d : nat) (z : Z) (rest : pystr) :
  number_end rest = true -> too_many_digits lim (int_digits z) = false ->
  scans_to lim d (PInt z) (str_of_Z z ++ rest) rest.
Proof.
  intros Hr Hd. apply scan_numeral; [apply str_of_Z_head|].
  now apply scan_number_str_of_Z.
Qed.

(** An infinity is read back where there is room for the call. *)
Lemma scan_infinity (lim : limits) (d : nat) (s : bool) (rest : pystr) :
  call_room lim <= d ->
  scans_to lim d (PFloat (S754_infinity s))
           (floatstr (S754_infinity s) ++ rest) rest.
Proof.
  intros Hd. apply (scans_to_intro lim d 1). rewrite scan_once_S.
  apply Nat.ltb_ge in Hd. destruct s; cbn; unfold constant; now rewrite Hd.
Qed.

Lemma scan_str (lim : limits) (d : nat) (s rest : pystr) :
  is_text s = true -> scans_to lim d (PStr s) (encode_string s ++ rest) rest.
Proof.
  intros Hs. apply (scans_to_intro lim d 1). rewrite scan_once_S.
  unfold encode_string. simpl app. cbv beta iota. rewrite N.eqb_refl.
  rewrite <- app_assoc. change ([34%N] ++ rest) with (34%N :: rest).
  now rewrite (scanstring_encode s rest Hs).
Qed.

Lemma value_start_app (a b : pystr) : value_start a -> value_start (a ++ b).
Proof.
  intros (c & t & -> & H). exists c, (t ++ b). split; [reflexivity|exact H].
Qed.

Lemma array_body (lim : limits) (l : list pyval) :
  Forall (dumps_ok lim) l ->
  forallb json_value l = true ->
  forallb floats_read_back l = true ->
  forallb (ints_fit lim) l = true ->
  l <> [] ->
  exists body,
    join_items (dumps lim) 93 l = Some body /\ value_start body
    /\ forall d rest,
         fold_right (fun x m => Nat.max (room lim x) m) O l <= d ->
         exists f0, forall f, f0 <= f ->
           array_items f lim d (body ++ rest) = Found l rest.
Proof.
  induction 1 as [|x l Hx Hl IH]; intros Hj Hb Hi Hne; [congruence|].
  clear Hne. simpl in Hj, Hb, Hi.
  apply andb_true_iff in Hj as [Hjx Hjl].
  apply andb_true_iff in Hb as [Hbx Hbl].
  apply andb_true_iff in Hi as [Hix Hil].
  destruct (Hx Hjx Hbx Hix) as (a & Ea & Sa & Scan).
  destruct l as [|y l'].
  - exists (a ++ [93%N]). simpl. rewrite Ea. split; [reflexivity|].
    split; [now apply value_start_app|].
    intros d rest Hd. simpl in Hd.
    destruct (Scan d (93%N :: rest)) as (f0 & Hf0); [lia|reflexivity|].
    exists (S f0). intros [|f] Hf; [lia|].
    rewrite array_items_S, <- app_assoc. simpl app.
    rewrite Hf0 by lia. reflexivity.
  - destruct (IH Hjl Hbl Hil) as (b & Eb & Sb & ScanB); [discriminate|].
    exists (a ++ u ", " ++ b).
    split; [|split; [now apply value_start_app|]].
    { change (join_items (dumps lim) 93 (x :: y :: l'))
        with (match dumps lim x, join_items (dumps lim) 93 (y :: l') with
              | Some a, Some b => Some (a ++ u ", " ++ b)
              | _, _ => None
              end).
      now rewrite Ea, Eb. }
    intros d rest Hd.
    change (fold_right (fun x m => Nat.max (room lim x) m) O (x :: y :: l'))
      with (Nat.max (room lim x)
              (fold_right (fun x m => Nat.max (room lim x) m) O (y :: l')))
      in Hd.
    destruct (Scan d (u ", " ++ b ++ rest)) as (f0 & Hf0);
      [lia|reflexivity|].
    destruct (ScanB d rest) as (f1 & Hf1); [lia|].
    exists (S (Nat.max f0 f1)). intros [|f] Hf; [lia|].
    rewrite array_items_S.
    replace ((a ++ u ", " ++ b) ++ rest) with (a ++ u ", " ++ b ++ rest)
      by (now rewrite <- !app_assoc).
    rewrite Hf0 by lia.
    change (skip_ws (u ", " ++ b ++ rest))
      with (44%N :: 32%N :: b ++ rest).
    cbv beta iota.
    change (44 =? 93)%N with false. change (44 =? 44)%N with true.
    cbv beta iota.
    change (skip_ws (32%N :: b ++ rest)) with (skip_ws (b ++ rest)).
    rewrite (skip_ws_value_start b rest Sb), Hf1 by lia. reflexivity.
Qed.

Lemma object_body (lim : limits) (d : pydict) :
  Forall (fun kv => dumps_ok lim (snd kv)) d ->
  forallb (fun kv => is_text (fst kv) && json_value (snd kv)) d = true ->
  forallb (fun kv => floats_read_back (snd kv)) d = true ->
  forallb (fun kv => ints_fit lim (snd kv)) d = true ->
  d <> [] ->
  exists body,
    join_items (render_pair lim) 125 d = Some (34%N :: body)
    /\ forall n rest,
         fold_right (fun kv m => Nat.max (room lim (snd kv)) m) O d <= n ->
         exists f0, forall f, f0 <= f ->
           object_items f lim n (body ++ rest) = Found d rest.
Proof.
  induction 1 as [|[k x] d Hx Hd IH]; intros Hj Hb Hi Hne; [congruence|].
  clear Hne. simpl in Hj, Hb, Hi.
  apply andb_true_iff in Hj as [Hjx Hjd].
  apply andb_true_iff in Hjx as [Hk Hjx].
  apply andb_true_iff in Hb as [Hbx Hbd].
  apply andb_true_iff in Hi as [Hix Hid].
  cbn [fst snd] in Hx, Hk, Hjx, Hbx, Hix.
  destruct (Hx Hjx Hbx Hix) as (a & Ea & Sa & Scan).
  assert (Key : forall tail,
             scanstring ((flat_map escape_char k ++ [34%N]) ++ tail)
             = Some (k, tail)).
  { intros tail. rewrite <- app_assoc. apply (scanstring_encode k tail Hk). }
  assert (Er : render_pair lim (k, x)
               = Some (34%N :: (flat_map escape_char k ++ [34%N])
                              ++ u ": " ++ a)).
  { unfold render_pair. simpl fst. simpl snd. rewrite Ea. reflexivity. }
  destruct d as [|kv d'].
  - exists ((flat_map escape_char k ++ [34%N]) ++ u ": " ++ a ++ [125%N]).
    split.
    { simpl join_items. rewrite Er. simpl. now rewrite <- !app_assoc. }
    intros n rest Hn. simpl in Hn.
    destruct (Scan n (125%N :: rest)) as (f0 & Hf0); [lia|reflexivity|].
    exists (S f0). intros [|f] Hf; [lia|].
    rewrite object_items_S, <- app_assoc, Key.
    replace ((u ": " ++ a ++ [125%N]) ++ rest)
      with (58%N :: 32%N :: a ++ 125%N :: rest)
      by (simpl; now rewrite <- !app_assoc).
    change (skip_ws (58%N :: 32%N :: a ++ 125%N :: rest))
      with (58%N :: 32%N :: a ++ 125%N :: rest).
    cbv beta iota. change (58 =? 58)%N with true. cbv beta iota.
    change (skip_ws (32%N :: a ++ 125%N :: rest))
      with (skip_ws (a ++ 125%N :: rest)).
    rewrite (skip_ws_value_start a (125%N :: rest) Sa), Hf0 by lia.
    reflexivity.
  - destruct (IH Hjd Hbd Hid) as (b & Eb & ScanB); [discriminate|].
    exists ((flat_map escape_char k ++ [34%N]) ++ u ": " ++ a
            ++ u ", " ++ 34%N :: b).
    split.
    { change (join_items (render_pair lim) 125 ((k, x) :: kv :: d'))
        with (match render_pair lim (k, x),
                    join_items (render_pair lim) 125 (kv :: d') with
              | Some a, Some b => Some (a ++ u ", " ++ b)
              | _, _ => None
              end).
      rewrite Er, Eb. simpl. now rewrite <- !app_assoc. }
    intros n rest Hn.
    change (fold_right (fun kv m => Nat.max (room lim (snd kv)) m) O
              ((k, x) :: kv :: d'))
      with (Nat.max (room lim x)
              (fold_right (fun kv m => Nat.max (room lim (snd kv)) m) O
                 (kv :: d')))
      in Hn.
    destruct (Scan n (u ", " ++ 34%N :: b ++ rest)) as (f0 & Hf0);
      [lia|reflexivity|].
    destruct (ScanB n rest) as (f1 & Hf1); [lia|].
    exists (S (Nat.max f0 f1)). intros [|f] Hf; [lia|].
    rewrite object_items_S, <- app_assoc, Key.
    replace ((u ": " ++ a ++ u ", " ++ 34%N :: b) ++ rest)
      with (58%N :: 32%N :: a ++ u ", " ++ 34%N :: b ++ rest)
      by (simpl; now rewrite <- !app_assoc).
    change (skip_ws (58%N :: 32%N :: a ++ u ", " ++ 34%N :: b ++ rest))
      with (58%N :: 32%N :: a ++ u ", " ++ 34%N :: b ++ rest).
    cbv beta iota. change (58 =? 58)%N with true. cbv beta iota.
    change (skip_ws (32%N :: a ++ u ", " ++ 34%N :: b ++ rest))
      with (skip_ws (a ++ u ", " ++ 34%N :: b ++ rest)).
    rewrite (skip_ws_value_start a _ Sa), Hf0 by lia.
    change (skip_ws (u ", " ++ 34%N :: b ++ rest))
      with (44%N :: 32%N :: 34%N :: b ++ rest).
    cbv beta iota.
    change (44 =? 125)%N with false. change (44 =? 44)%N with true.
    cbv beta iota.
    change (skip_ws (32%N :: 34%N :: b ++ rest)) with (34%N :: b ++ rest).
    cbv beta iota. change (34 =? 34)%N with true. cbv beta iota.
    rewrite Hf1 by lia. reflexivity.
Qed.

(** Every JSON value is read back from its encoding, whatever follows
    it, provided what follows cannot continue a number. *)
Lemma dumps_scan (lim : limits) (v : pyval) : dumps_ok lim v.
Proof.
  induction v as [ |b|z|x|s|b|b|l IHl|d IHd|n|c] using pyval_nested_ind;
    intros Hj Hb Hi; try discriminate.
  - exists (u "null"). split; [reflexivity|]. split.
    + exists 110%N, (u "ull"). repeat split; discriminate.
    + intros d rest _ _. now apply (scans_to_intro lim d 1).
  - destruct b.
    + exists (u "true"). split; [reflexivity|]. split.
      * exists 116%N, (u "rue"). repeat split; discriminate.
      * intros d rest _ _. now apply (scans_to_intro lim d 1).
    + exists (u "false"). split; [reflexivity|]. split.
      * exists 102%N, (u "alse"). repeat split; discriminate.
      * intros d rest _ _. now apply (scans_to_intro lim d 1).
  - simpl in Hi. apply negb_true_iff in Hi.
    exists (str_of_Z z). split; [simpl; now rewrite Hi|]. split.
    + apply numeral_value_start, str_of_Z_head.
    + intros d rest _ Hr. now apply scan_int.
  - exists (floatstr x). split; [reflexivity|].
    destruct x as [s|s| |s m e]; try discriminate.
    + split.
      * destruct s; [exists 45%N, (u "0.0")|exists 48%N, (u ".0")];
          repeat split; discriminate.
      * intros d rest _ Hr.
        destruct (scan_number_repr lim (S754_zero s) rest eq_refl Hb Hr)
          as (Hn & Hh).
        now apply scan_numeral.
    + split.
      * destruct s; [exists 45%N, (u "Infinity")|exists 73%N, (u "nfinity")];
          repeat split; discriminate.
      * intros d rest Hd _. now apply scan_infinity.
    + split.
      * apply numeral_value_start.
        apply (scan_number_repr lim (S754_finite s m e) [] eq_refl Hb eq_refl).
      * intros d rest _ Hr.
        destruct (scan_number_repr lim (S754_finite s m e) rest eq_refl Hb Hr)
          as (Hn & Hh).
        now apply scan_numeral.
  - exists (encode_string s). split; [reflexivity|]. split.
    + exists 34%N, (flat_map escape_char s ++ [34%N]).
      repeat split; discriminate.
    + intros d rest _ _. now apply scan_str.
  - simpl in Hj, Hb, Hi. destruct l as [|x l'].
    + exists [91%N; 93%N]. split; [reflexivity|]. split.
      * exists 91%N, [93%N]. repeat split; discriminate.
      * intros [|d] rest Hd _; [simpl in Hd; lia|].
        now apply (scans_to_intro lim (S d) 1).
    + destruct (array_body lim (x :: l') IHl Hj Hb Hi)
        as (body & Eb & Sb & Scan); [discriminate|].
      exists (91%N :: body). split.
      { change (dumps lim (PList (x :: l')))
          with (option_map (cons 91%N)
                           (join_items (dumps lim) 93 (x :: l'))).
        now rewrite Eb. }
      split; [exists 91%N, body; repeat split; discriminate|].
      intros [|d] rest Hd _; [simpl in Hd; lia|].
      destruct (Scan d rest) as (f0 & Hf0).
      { change (room lim (PList (x :: l')))
          with (S (fold_right (fun x m => Nat.max (room lim x) m) O
                     (x :: l'))) in Hd.
        lia. }
      apply (scans_to_intro lim (S d) (S f0)). rewrite scan_once_S.
      simpl app. cbv beta iota.
      change (91 =? 34)%N with false. change (91 =? 123)%N with false.
      change (91 =? 91)%N with true. cbv beta iota.
      rewrite (skip_ws_value_start body rest Sb).
      destruct Sb as (c & t & -> & _ & Hc & _). simpl app. cbv beta iota.
      apply N.eqb_neq in Hc. rewrite Hc.
      change (c :: t ++ rest) with ((c :: t) ++ rest).
      rewrite Hf0 by lia. reflexivity.
  - simpl in Hj, Hb, Hi. apply andb_true_iff in Hj as [Hu Hj].
    destruct d as [|kv d'].
    + exists [123%N; 125%N]. split; [reflexivity|]. split.
      * exists 123%N, [125%N]. repeat split; discriminate.
      * intros [|n] rest Hn _; [simpl in Hn; lia|].
        now apply (scans_to_intro lim (S n) 1).
    + destruct (object_body lim (kv :: d') IHd Hj Hb Hi)
        as (body & Eb & Scan); [discriminate|].
      exists (123%N :: 34%N :: body). split.
      { change (dumps lim (PDict (kv :: d')))
          with (option_map (cons 123%N)
                           (join_items (render_pair lim) 125 (kv :: d'))).
        now rewrite Eb. }
      split; [exists 123%N, (34%N :: body); repeat split; discriminate|].
      intros [|n] rest Hn _; [simpl in Hn; lia|].
      destruct (Scan n rest) as (f0 & Hf0).
      { change (room lim (PDict (kv :: d')))
          with (S (fold_right
                     (fun kv m => Nat.max (room lim (snd kv)) m) O
                     (kv :: d'))) in Hn.
        lia. }
      apply (scans_to_intro lim (S n) (S f0)). rewrite scan_once_S.
      simpl app. cbv beta iota.
      change (123 =? 34)%N with false. change (123 =? 123)%N with true.
      cbv beta iota.
      change (skip_ws (34%N :: body ++ rest)) with (34%N :: body ++ rest).
      cbv beta iota.
      change (34 =? 125)%N with false. change (34 =? 34)%N with true.
      cbv beta iota.
      rewrite Hf0 by lia. simpl scan_map.
      now rewrite (dict_of_pairs_unique (kv :: d') Hu).
Qed.

(** What [dumps] writes holds no integer that [int] refuses. *)
Lemma dumps_ints_fit (lim : limits) (v : pyval) :
  forall text, dumps lim v = Some text -> ints_fit lim v = true.
Proof.
  induction v as [ |b|z|x|s|b|b|l IHl|d IHd|n|c] using pyval_nested_ind;
    intros text; try reflexivity.
  - simpl. now destruct (too_many_digits lim (int_digits z)).
  - simpl. destruct (join_items (dumps lim) 93 l) as [body|] eqn:E;
      [intros _|discriminate].
    revert body E. induction IHl as [|x l Hx Hl IH]; intros body E;
      [reflexivity|].
    simpl in E. destruct (dumps lim x) as [a|] eqn:Ea; [|discriminate].
    destruct (join_items (dumps lim) 93 l) as [b|] eqn:Eb; [|discriminate].
    simpl. now rewrite (Hx a eq_refl), (IH b eq_refl).
  - simpl.
    match goal with
    | |- option_map _ ?j = _ -> _ =>
        destruct j as [body|] eqn:E; [intros _|discriminate]
    end.
    revert body E. induction IHd as [|[k x] d Hx Hd IH]; intros body E;
      [reflexivity|].
    simpl in E. destruct (dumps lim x) as [a|] eqn:Ea; [|discriminate].
    simpl in E.
    match type of E with
    | match ?j with _ => _ end = _ =>
        destruct j as [b|] eqn:Eb; [|discriminate]
    end.
    simpl. simpl in Hx. now rewrite (Hx a Ea), (IH b eq_refl).
Qed.

(** [json.loads(json.dumps(v)) == v] for the values of the JSON data
    model, where the scanner has the room for them. *)
Lemma loads_dumps (lim : limits) (v : pyval) (text : pystr) :
  json_value v = true ->
  floats_read_back v = true ->
  room lim v <= max_depth lim ->
  dumps lim v = Some text ->
  loads lim (PStr text) = inl v.
Proof.
  intros Hj Hb Hd Ed.
  destruct (dumps_scan lim v Hj Hb (dumps_ints_fit lim v text Ed))
    as (text' & Ed' & Sv & Scan).
  rewrite Ed in Ed'. injection Ed' as <-.
  destruct (Scan (max_depth lim) [] Hd eq_refl) as (f0 & Hf0).
  rewrite app_nil_r in Hf0.
  assert (Hdec : decode lim text = inl v).
  { unfold decode.
    rewrite <- (app_nil_r text) at 2.
    rewrite (skip_ws_value_start text [] Sv), app_nil_r.
    set (f1 := S (2 * List.length text)).
    assert (Ht : scan_once f1 lim (max_depth lim) text <> OutOfFuel).
    { destruct (scan_total lim f1) as (T & _). apply T. subst f1. lia. }
    assert (E : scan_once f1 lim (max_depth lim) text = Found v []).
    { rewrite <- (scan_once_le lim (max_depth lim) f1 (Nat.max f0 f1) text)
        by (lia || exact Ht).
      apply Hf0. lia. }
    now rewrite E. }
  unfold loads. rewrite Hdec.
  destruct Sv as (c & t & -> & _ & _ & Hc).
  apply N.eqb_neq in Hc. simpl starts_with_bom. now rewrite Hc.
Qed.

(* ================================================================= *)
(** ** The exceptions of [json.loads] *)

Lemma scan_map_raised (A B : Type) (f : A -> B) (x : scan A) (e : pyexn) :
  scan_map f x = Raised e -> x = Raised e.
Proof. destruct x; simpl; congruence. Qed.

Lemma malformed_raised (A : Type) (lim : limits) (d : nat) (e : pyexn) :
  @malformed A lim d = Raised e -> e = RecursionError.
Proof.
  unfold malformed. destruct (d <? error_room lim)%nat; congruence.
Qed.

Lemma constant_raised (lim : limits) (d : nat) (x : spec_float)
      (rest : pystr) (e : pyexn) :
  constant lim d x rest = Raised e -> e = RecursionError.
Proof.
  unfold constant. destruct (d <? call_room lim)%nat; congruence.
Qed.

Lemma scan_number_raised (lim : limits) (s : pystr) (e : pyexn) :
  scan_number lim s = Raised e ->
  exists n, e = ValueError (digits_message lim n).
Proof.
  unfold scan_number.
  destruct (match_number s) as [[[[i f] x] r]|]; [|discriminate].
  destruct f, x; try discriminate.
  destruct (too_many_digits lim (count_digits i)); [|discriminate].
  intros [= <-]. now exists (count_digits i).
Qed.

(** What the scanner raises: [RecursionError], or the [ValueError] of
    [int] for an integer with too many digits. *)
Lemma scan_raises (lim : limits) (fuel : nat) :
  (forall d s e, scan_once fuel lim d s = Raised e ->
                 e = RecursionError
                 \/ exists n, e = ValueError (digits_message lim n))
  /\ (forall d s e, array_items fuel lim d s = Raised e ->
                    e = RecursionError
                    \/ exists n, e = ValueError (digits_message lim n))
  /\ (forall d s e, object_items fuel lim d s = Raised e ->
                    e = RecursionError
                    \/ exists n, e = ValueError (digits_message lim n)).
Proof.
  assert (M : forall A d e,
             @malformed A lim d = Raised e ->
             e = RecursionError
             \/ exists n, e = ValueError (digits_message lim n)).
  { intros A d e H. left. exact (malformed_raised A lim d e H). }
  induction fuel as [|fuel (IHv & IHa & IHo)].
  { repeat split; intros; discriminate. }
  repeat split.
  - intros d s e. rewrite scan_once_S.
    destruct s as [|c s]; [discriminate|].
    destruct (c =? 34)%N.
    { destruct (scanstring s) as [[str rest]|]; [discriminate|apply M]. }
    destruct (c =? 123)%N.
    { destruct d as [|d]; [intros [= <-]; now left|].
      destruct (skip_ws s) as [|q r']; [apply M|].
      destruct (q =? 125)%N; [discriminate|].
      destruct (q =? 34)%N; [|apply M].
      intros H. apply scan_map_raised in H. exact (IHo _ _ _ H). }
    destruct (c =? 91)%N.
    { destruct d as [|d]; [intros [= <-]; now left|].
      destruct (skip_ws s) as [|q r']; [discriminate|].
      destruct (q =? 93)%N; [discriminate|].
      intros H. apply scan_map_raised in H. exact (IHa _ _ _ H). }
    repeat
      match goal with
      | |- match strip_prefix ?p ?t with _ => _ end = _ -> _ =>
          destruct (strip_prefix p t);
          [first [discriminate
                 |intros H; left; exact (constant_raised _ _ _ _ _ H)]|]
      | |- match scan_number ?l ?t with _ => _ end = _ -> _ =>
          let E := fresh "E" in
          destruct (scan_number l t) eqn:E;
          [clear E|clear E
          |intros [= <-]; right; exact (scan_number_raised _ _ _ E)
          |discriminate]
      end; discriminate.
  - intros d s e. rewrite array_items_S.
    destruct (scan_once fuel lim d s) as [| |e'|v r0] eqn:E;
      try discriminate.
    { intros [= <-]. exact (IHv _ _ _ E). }
    destruct (skip_ws r0) as [|c r']; [apply M|].
    destruct (c =? 93)%N; [discriminate|].
    destruct (c =? 44)%N; [|apply M].
    intros H. apply scan_map_raised in H. exact (IHa _ _ _ H).
  - intros d s e. rewrite object_items_S.
    destruct (scanstring s) as [[key r0]|]; [|apply M].
    destruct (skip_ws r0) as [|c r1]; [apply M|].
    destruct (c =? 58)%N; [|apply M].
    destruct (scan_once fuel lim d (skip_ws r1)) as [| |e'|v r2] eqn:E;
      try discriminate.
    { intros [= <-]. exact (IHv _ _ _ E). }
    destruct (skip_ws r2) as [|c2 r3]; [apply M|].
    destruct (c2 =? 125)%N; [discriminate|].
    destruct (c2 =? 44)%N; [|apply M].
    destruct (skip_ws r3) as [|q r4]; [apply M|].
    destruct (q =? 34)%N; [|apply M].
    intros H. apply scan_map_raised in H. exact (IHo _ _ _ H).
Qed.

(** *** A short text in a deep enough interpreter raises nothing *)

Lemma match_integer_app (s i r : pystr) :
  match_integer s = Some (i, r) -> List.length i <= List.length s.
Proof.
  assert (Body : forall sign s1,
             match s1 with
             | d :: r0 =>
                 if (d =? 48)%N then Some (sign ++ [d], r0)
                 else if is_digit d
                 then let (ds, r') := span_digits r0 in
                      Some (sign ++ d :: ds, r')
                 else None
             | [] => None
             end = Some (i, r) ->
             List.length i <= List.length sign + List.length s1).
  { intros sign [|d r0]; [discriminate|].
    destruct (d =? 48)%N.
    { intros [= <- <-]. rewrite length_app. simpl. lia. }
    destruct (is_digit d); [|discriminate].
    destruct (span_digits r0) as [ds r'] eqn:E. intros [= <- <-].
    apply span_digits_app in E. subst r0.
    rewrite !length_app. simpl. rewrite length_app. lia. }
  unfold match_integer. destruct s as [|c s]; [discriminate|].
  destruct (c =? 45)%N; intros H;
    [apply (Body [c] s) in H|apply (Body [] (c :: s)) in H]; simpl in *; lia.
Qed.

Lemma count_digits_length (i : pystr) :
  (count_digits i <= N.of_nat (List.length i))%N.
Proof.
  unfold count_digits. destruct i as [|c ds]; [reflexivity|].
  destruct (c =? 45)%N; simpl List.length; lia.
Qed.

(** A numeral of at most 640 characters is below the threshold of the
    cap on digits. *)
Lemma scan_number_safe (lim : limits) (s : pystr) (e : pyexn) :
  (N.of_nat (List.length s) <= 640)%N -> scan_number lim s <> Raised e.
Proof.
  intros Hs. unfold scan_number, match_number.
  destruct (match_integer s) as [[i r]|] eqn:Ei; [|discriminate].
  apply match_integer_app in Ei. pose proof (count_digits_length i) as Hc.
  assert (Hd : too_many_digits lim (count_digits i) = false).
  { unfold too_many_digits.
    replace (640 <? count_digits i)%N with false
      by (symmetry; apply N.ltb_ge; lia).
    reflexivity. }
  destruct (match_frac r) as [[f r1]|];
    [destruct (match_exp r1) as [[x r2]|]
    |destruct (match_exp r) as [[x r2]|]];
    try destruct f; try destruct x; rewrite ?Hd; discriminate.
Qed.

Lemma malformed_safe (A : Type) (lim : limits) (d : nat) (e : pyexn) :
  error_room lim <= d -> @malformed A lim d <> Raised e.
Proof.
  unfold malformed. intros H. apply Nat.ltb_ge in H. rewrite H. discriminate.
Qed.

Lemma constant_safe (lim : limits) (d : nat) (x : spec_float)
      (rest : pystr) (e : pyexn) :
  call_room lim <= d -> constant lim d x rest <> Raised e.
Proof.
  unfold constant. intros H. apply Nat.ltb_ge in H. rewrite H. discriminate.
Qed.

Lemma scan_map_safe (A B : Type) (f : A -> B) (x : scan A) (e : pyexn) :
  x <> Raised e -> scan_map f x <> Raised e.
Proof. intros H E. apply scan_map_raised in E. contradiction. Qed.

(** With a text of at most 640 characters and a depth that exceeds its
    length by the room of an error and of a call, the scanners raise
    nothing: each level entered has used a character. *)
Lemma scan_safe (lim : limits) (fuel : nat) :
  (forall d s e,
      (N.of_nat (List.length s) <= 640)%N ->
      List.length s + error_room lim <= d ->
      List.length s + call_room lim <= d ->
      scan_once fuel lim d s <> Raised e)
  /\ (forall d s e,
         (N.of_nat (List.length s) <= 640)%N ->
         List.length s + error_room lim <= d ->
         List.length s + call_room lim <= d ->
         array_items fuel lim d s <> Raised e)
  /\ (forall d s e,
         (N.of_nat (List.length s) <= 640)%N ->
         List.length s + error_room lim <= d ->
         List.length s + call_room lim <= d ->
         object_items fuel lim d s <> Raised e).
Proof.
  induction fuel as [|fuel (IHv & IHa & IHo)].
  { repeat split; intros; discriminate. }
  destruct (scan_consumes lim fuel) as (Cv & _ & _).
  repeat split.
  - intros d s e Hs He Hc. rewrite scan_once_S.
    destruct s as [|c s]; [discriminate|]. simpl List.length in *.
    destruct (c =? 34)%N.
    { destruct (scanstring s) as [[? ?]|];
        [discriminate|apply malformed_safe; lia]. }
    destruct (c =? 123)%N.
    { destruct d as [|d]; [lia|].
      pose proof (skip_ws_length s) as Hw.
      destruct (skip_ws s) as [|q r']; [apply malformed_safe; lia|].
      simpl List.length in Hw.
      destruct (q =? 125)%N; [discriminate|].
      destruct (q =? 34)%N; [|apply malformed_safe; lia].
      apply scan_map_safe, IHo; lia. }
    destruct (c =? 91)%N.
    { destruct d as [|d]; [lia|].
      pose proof (skip_ws_length s) as Hw.
      destruct (skip_ws s) as [|q r']; [discriminate|].
      destruct (q =? 93)%N; [discriminate|].
      apply scan_map_safe, IHa; simpl List.length in *; lia. }
    pose proof (scan_number_safe lim (c :: s)) as Hn.
    repeat
      match goal with
      | |- match strip_prefix ?p ?t with _ => _ end <> _ =>
          destruct (strip_prefix p t);
          [first [discriminate|apply constant_safe; lia]|]
      | |- match scan_number ?l ?t with _ => _ end <> _ =>
          destruct (scan_number l t) as [| |e'|v r0];
          [| |exfalso; apply (Hn e'); [simpl List.length; lia|reflexivity]
          |discriminate]
      end; discriminate.
  - intros d s e Hs He Hc. rewrite array_items_S.
    pose proof (IHv d s) as Hv.
    destruct (scan_once fuel lim d s) as [| |e'|v r0] eqn:E;
      [discriminate|discriminate
      |exfalso; now apply (Hv e' Hs He Hc)|].
    apply Cv in E. pose proof (skip_ws_length r0) as Hw.
    destruct (skip_ws r0) as [|c r']; [apply malformed_safe; lia|].
    simpl List.length in Hw.
    destruct (c =? 93)%N; [discriminate|].
    destruct (c =? 44)%N; [|apply malformed_safe; lia].
    pose proof (skip_ws_length r').
    apply scan_map_safe, IHa; lia.
  - intros d s e Hs He Hc. rewrite object_items_S.
    destruct (scanstring s) as [[key r0]|] eqn:Ek;
      [|apply malformed_safe; lia].
    apply scanstring_length in Ek. pose proof (skip_ws_length r0) as Hw0.
    destruct (skip_ws r0) as [|c r1]; [apply malformed_safe; lia|].
    simpl List.length in Hw0.
    destruct (c =? 58)%N; [|apply malformed_safe; lia].
    pose proof (skip_ws_length r1) as Hw1.
    pose proof (IHv d (skip_ws r1)) as Hv.
    destruct (scan_once fuel lim d (skip_ws r1)) as [| |e'|v r2] eqn:E;
      [discriminate|discriminate
      |exfalso; apply (Hv e'); [lia|lia|lia|reflexivity]|].
    apply Cv in E. pose proof (skip_ws_length r2) as Hw2.
    destruct (skip_ws r2) as [|c2 r3]; [apply malformed_safe; lia|].
    simpl List.length in Hw2.
    destruct (c2 =? 125)%N; [discriminate|].
    destruct (c2 =? 44)%N; [|apply malformed_safe; lia].
    pose proof (skip_ws_length r3) as Hw3.
    destruct (skip_ws r3) as [|q r4]; [apply malformed_safe; lia|].
    simpl List.length in Hw3.
    destruct (q =? 34)%N; [|apply malformed_safe; lia].
    apply scan_map_safe, IHo; lia.
Qed.

(** Such a text is decoded or rejected as malformed, nothing else. *)
Lemma loads_short_text (lim : limits) (s : pystr) :
  (N.of_nat (List.length s) <= 640)%N ->
  List.length s + error_room lim <= max_depth lim ->
  List.length s + call_room lim <= max_depth lim ->
  (exists v, Json.loads lim (PStr s) = inl v)
  \/ Json.loads lim (PStr s) = inr JSONDecodeError.
Proof.
  intros Hs He Hc. unfold Json.loads.
  destruct (starts_with_bom s); [now right|]. unfold decode.
  pose proof (skip_ws_length s) as Hw.
  destruct (scan_once (S (2 * List.length s)) lim (max_depth lim) (skip_ws s))
    as [| |e|v rest] eqn:E.
  - now right.
  - now right.
  - exfalso. apply (proj1 (scan_safe lim _) _ _ e) in E; [exact E| | |]; lia.
  - destruct (skip_ws rest); [left; now exists v|now right].
Qed.

Lemma decode_errors (lim : limits) (s : pystr) (e : pyexn) :
  decode lim s = inr e ->
  e = JSONDecodeError \/ e = RecursionError
  \/ exists n, e = ValueError (digits_message lim n).
Proof.
  unfold decode.
  destruct (scan_once (S (2 * List.length s)) lim (max_depth lim) (skip_ws s))
    as [| |e'|v rest] eqn:E.
  - intros [= <-]. now left.
  - intros [= <-]. now left.
  - intros [= <-]. right.
    exact (proj1 (scan_raises lim _) _ _ _ E).
  - destruct (skip_ws rest); [discriminate|]. intros [= <-]. now left.
Qed.

(** The exceptions of [json.loads]. *)
Lemma loads_errors (lim : limits) (raw : pyval) (e : pyexn) :
  Json.loads lim raw = inr e ->
  e = JSONDecodeError \/ e = TypeError \/ e = UnicodeDecodeError
  \/ e = RecursionError
  \/ exists n, e = ValueError (digits_message lim n).
Proof.
  unfold Json.loads. intros H.
  assert (Run : forall s,
             decode lim s = inr e ->
             e = JSONDecodeError \/ e = TypeError \/ e = UnicodeDecodeError
             \/ e = RecursionError
             \/ exists n, e = ValueError (digits_message lim n)).
  { intros s Hs. destruct (decode_errors lim s e Hs) as [->|[->|Hn]];
      [now left|now right; right; right; left|].
    right; right; right; right; exact Hn. }
  destruct raw; try (right; left; congruence).
  - destruct (starts_with_bom s); [left; congruence|now apply (Run s)].
  - destruct (Codec.bytes_decode b) as [s|];
      [now apply (Run s)|right; right; left; congruence].
  - destruct (Codec.bytes_decode b) as [s|];
      [now apply (Run s)|right; right; left; congruence].
Qed.

Lemma loads_unicode_error (lim : limits) (raw : pyval) :
  Json.loads lim raw = inr UnicodeDecodeError ->
  exists b, raw = PBytes b \/ raw = PByteArray b.
Proof.
  unfold Json.loads. destruct raw; intros H; try discriminate H.
  - destruct (starts_with_bom s); [discriminate H|].
    destruct (decode_errors lim s _ H) as [E|[E|(n & E)]]; discriminate E.
  - exists b. now left.
  - exists b. now right.
Qed.

(* ================================================================= *)
(** ** [Secret.get], path by path *)

Lemma get_building (lim : limits) (self : Secret) (w : world) :
  building_flow w = true ->
  get lim self w = (inr ContextViolation, log (ContextGet (u "flow")) w).
Proof.
  unfold building_flow, get, bind, context_get. intros H.
  now rewrite H.
Qed.

Lemma get_remote (lim : limits) (self : Secret) (w : world) :
  building_flow w = false -> local_mode w = false ->
  get lim self w
  = (remote_result w (name self),
     log (ClientQuery (name self))
         (log ConfigRead (log (ContextGet (u "flow")) w))).
Proof.
  unfold building_flow, local_mode, get, bind, context_get,
    config_use_local_secrets, client_graphql, remote_result, ret.
  intros H1 H2. rewrite H1. simpl. rewrite H2. unfold log. simpl.
  now destruct (secret_service w (name self)).
Qed.

Lemma get_local (lim : limits) (self : Secret) (w : world) :
  building_flow w = false -> local_mode w = true ->
  get lim self w
  = (local_result lim (local_secrets w) (name self),
     log (Subscript (name self))
       (log (ContextGet (u "secrets"))
          (log ConfigRead (log (ContextGet (u "flow")) w)))).
Proof.
  unfold building_flow, local_mode, local_secrets, get, bind, context_get,
    config_use_local_secrets, local_result, try_except, getitem, json_loads,
    ret, raise, context_value.
  intros H1 H2. rewrite H1. simpl. rewrite H2. unfold log. simpl.
  destruct (dict_lookup (context w) (u "secrets")) as [secrets|]; simpl.
  - destruct secrets; try reflexivity.
    destruct (dict_lookup items (name self)) as [raw|]; [|reflexivity].
    destruct (Json.loads lim raw) as [v|[]]; reflexivity.
  - reflexivity.
Qed.

Lemma messages_differ (n : pystr) : building_message <> not_found_message n.
Proof. unfold building_message, not_found_message. simpl. discriminate. Qed.

(** The [ValueError] of [int] is neither of the two of [get]. *)
Lemma digits_message_differs (lim : limits) (n : N) :
  digits_message lim n <> building_message
  /\ forall name, digits_message lim n <> not_found_message name.
Proof.
  unfold digits_message, building_message, not_found_message.
  split; [|intros name]; simpl; discriminate.
Qed.

(* ================================================================= *)
(** ** The properties of [Secret.get] *)

(** C1: while a Flow is being built, [get] raises the error of the
    guard, for every name and whatever the flag; the only thing it has
    done is to read the [flow] entry of the context, so that the local
    mapping was not looked up and the remote client was not queried. *)
Theorem C1_guard_before_backends (lim : limits) (self : Secret) (w : world) :
  building_flow w = true ->
  get lim self w = (inr ContextViolation, log (ContextGet (u "flow")) w)
  /\ local_lookups (trace (snd (get lim self w))) = local_lookups (trace w)
  /\ client_queries (trace (snd (get lim self w)))
     = client_queries (trace w).
Proof.
  intros H. rewrite (get_building lim self w H). split; [reflexivity|].
  simpl. clear H. induction (trace w) as [|e tr [IH1 IH2]].
  - split; reflexivity.
  - destruct e; simpl; rewrite ?IH1, ?IH2; split; reflexivity.
Qed.

Lemma C1_witness :
  building_flow (fresh_world building_context (PBool true)) = true
  /\ fst (get cpython {| name := u "db_pw" |}
              (fresh_world building_context (PBool true)))
     = inr ContextViolation
  /\ fst (get cpython {| name := u "db_pw" |}
              (fresh_world building_context (PBool false)))
     = inr ContextViolation.
Proof.
  split; [reflexivity|]. split.
  - rewrite (proj1 (C1_guard_before_backends cpython {| name := u "db_pw" |}
                      (fresh_world building_context (PBool true)) eq_refl)).
    reflexivity.
  - rewrite (proj1 (C1_guard_before_backends cpython {| name := u "db_pw" |}
                      (fresh_world building_context (PBool false)) eq_refl)).
    reflexivity.
Defined.

(** C2: in local mode, once the guard has passed, a name with no entry
    in the local mapping makes [get] raise the not-found error that
    carries that name; no value is returned. *)
Theorem C2_missing_name_not_found (lim : limits) (self : Secret) (w : world)
        (d : pydict) :
  building_flow w = false ->
  use_local_secrets w = PBool true ->
  local_secrets w = PDict d ->
  dict_lookup d (name self) = None ->
  fst (get lim self w) = inr (NotFound (name self))
  /\ forall v, fst (get lim self w) <> inl v.
Proof.
  intros Hb Hf Hs Hn.
  assert (Hl : local_mode w = true) by (unfold local_mode; now rewrite Hf).
  rewrite (get_local lim self w Hb Hl), Hs. simpl. rewrite Hn.
  split; [reflexivity|discriminate].
Qed.

Lemma C2_witness :
  dict_lookup scenario_secrets (u "absent") = None
  /\ fst (get cpython {| name := u "absent" |}
              (fresh_world scenario_context (PBool true)))
     = inr (NotFound (u "absent")).
Proof.
  split; [reflexivity|].
  exact (proj1 (C2_missing_name_not_found cpython {| name := u "absent" |}
                  (fresh_world scenario_context (PBool true))
                  scenario_secrets eq_refl eq_refl eq_refl eq_refl)).
Defined.




(** C4, what the code does: in local mode, once the guard has passed,
    a failure of [json.loads] that is neither [JSONDecodeError] nor
    [TypeError] is not caught: [get] raises it and the stored value
    does not come back. *)
Theorem C4_uncaught_decoder_errors (lim : limits) (self : Secret)
        (w : world) (d : pydict) (raw : pyval) (e : pyexn) :
  building_flow w = false ->
  use_local_secrets w = PBool true ->
  local_secrets w = PDict d ->
  dict_lookup d (name self) = Some raw ->
  Json.loads lim raw = inr e ->
  e <> JSONDecodeError ->
  e <> TypeError ->
  fst (get lim self w) = inr e /\ fst (get lim self w) <> inl raw.
Proof.
  intros Hb Hf Hs Hn He H1 H2.
  assert (Hl : local_mode w = true) by (unfold local_mode; now rewrite Hf).
  rewrite (get_local lim self w Hb Hl), Hs. simpl. rewrite Hn, He.
  destruct e; try contradiction; split; (reflexivity || discriminate).
Qed.

Lemma C4_witness :
  dict_lookup scenario_secrets (u "blob") = Some (PBytes [xff])
  /\ Json.loads cpython (PBytes [xff]) = inr UnicodeDecodeError
  /\ (fst (get cpython {| name := u "blob" |}
               (fresh_world scenario_context (PBool true)))
      = inr UnicodeDecodeError
      /\ fst (get cpython {| name := u "blob" |}
                  (fresh_world scenario_context (PBool true)))
         <> inl (PBytes [xff]))
  /\ (fst (get shallow {| name := u "nested" |}
               (fresh_world nested_context (PBool true)))
      = inr RecursionError
      /\ fst (get shallow {| name := u "nested" |}
                  (fresh_world nested_context (PBool true)))
         <> inl (PStr (u "[[[1]]]"))).
Proof.
  split; [reflexivity|]. split; [reflexivity|]. split.
  - assert (H1 : UnicodeDecodeError <> JSONDecodeError) by discriminate.
    assert (H2 : UnicodeDecodeError <> TypeError) by discriminate.
    exact (C4_uncaught_decoder_errors cpython {| name := u "blob" |}
             (fresh_world scenario_context (PBool true)) scenario_secrets
             (PBytes [xff]) UnicodeDecodeError
             eq_refl eq_refl eq_refl eq_refl eq_refl H1 H2).
  - assert (H1 : RecursionError <> JSONDecodeError) by discriminate.
    assert (H2 : RecursionError <> TypeError) by discriminate.
    exact (C4_uncaught_decoder_errors shallow {| name := u "nested" |}
             (fresh_world nested_context (PBool true))
             [(u "nested", PStr (u "[[[1]]]"))]
             (PStr (u "[[[1]]]")) RecursionError
             eq_refl eq_refl eq_refl eq_refl eq_refl H1 H2).
Defined.

Lemma client_queries_app (tr tr' : list event) :
  client_queries (tr ++ tr') = client_queries tr ++ client_queries tr'.
Proof.
  induction tr as [|e tr IH]; [reflexivity|].
  destruct e; simpl; now rewrite IH.
Qed.

(** C5: in remote mode, once the guard has passed, [get] sends the
    client exactly one query, for the name of the secret, and an error
    of the client, a [ClientError] or any other, comes out as it was
    raised. *)
Theorem C5_remote_one_query (lim : limits) (self : Secret) (w : world) :
  building_flow w = false ->
  local_mode w = false ->
  client_queries (trace (snd (get lim self w)))
  = client_queries (trace w) ++ [name self]
  /\ (forall f, secret_service w (name self) = inr f ->
                fst (get lim self w) = inr (client_exn f))
  /\ (forall msg, secret_service w (name self) = inr (Refused msg) ->
                  fst (get lim self w) = inr (ClientError msg)).
Proof.
  intros Hb Hl. rewrite (get_remote lim self w Hb Hl). split; [|split].
  - simpl. rewrite <- !app_assoc, client_queries_app. reflexivity.
  - intros f Hm. simpl. unfold remote_result. now rewrite Hm.
  - intros msg Hm. simpl. unfold remote_result. now rewrite Hm.
Qed.

Lemma C5_witness :
  local_mode (fresh_world scenario_context (PBool false)) = false
  /\ client_queries
       (trace (snd (get cpython {| name := u "db_pw" |}
                        (fresh_world scenario_context (PBool false)))))
     = [u "db_pw"]
  /\ fst (get cpython {| name := u "db_pw" |}
              (fresh_world scenario_context (PBool false)))
     = inr (ClientError (u "secret not found on the server")).
Proof.
  split; [reflexivity|].
  destruct (C5_remote_one_query cpython {| name := u "db_pw" |}
              (fresh_world scenario_context (PBool false))
              eq_refl eq_refl) as (Hq & _ & He).
  split; [exact Hq|].
  exact (He (u "secret not found on the server") eq_refl).
Defined.

(** C6: the not-found error comes out in local mode only, and a client
    error in remote mode only. *)
Theorem C6_error_kinds_by_mode (lim : limits) (self : Secret) (w : world) :
  (forall n, fst (get lim self w) = inr (NotFound n) -> local_mode w = true)
  /\ (forall msg, fst (get lim self w) = inr (ClientError msg) ->
                  local_mode w = false).
Proof.
  destruct (building_flow w) eqn:Hb.
  - rewrite (get_building lim self w Hb). cbn [fst]. split.
    + intros n E. exfalso. apply (messages_differ n).
      unfold ContextViolation, NotFound in E. congruence.
    + discriminate.
  - destruct (local_mode w) eqn:Hl.
    + rewrite (get_local lim self w Hb Hl). simpl. split; [reflexivity|].
      intros msg. unfold local_result.
      destruct (local_secrets w); try discriminate.
      destruct (dict_lookup items (name self)) as [raw|]; [|discriminate].
      destruct (Json.loads lim raw) as [v|e] eqn:E; [discriminate|].
      destruct (loads_errors lim raw e E)
        as [-> | [-> | [-> | [-> | (n & ->)]]]]; discriminate.
    + rewrite (get_remote lim self w Hb Hl). simpl. split; [|reflexivity].
      intros n. unfold remote_result.
      destruct (secret_service w (name self)) as [v|[msg|cls msg]];
        discriminate.
Qed.

Lemma C6_witness :
  (fst (get cpython {| name := u "absent" |}
            (fresh_world scenario_context (PBool true)))
   = inr (NotFound (u "absent"))
   /\ local_mode (fresh_world scenario_context (PBool true)) = true)
  /\ (fst (get cpython {| name := u "absent" |}
               (fresh_world scenario_context (PBool false)))
      = inr (ClientError (u "secret not found on the server"))
      /\ local_mode (fresh_world scenario_context (PBool false)) = false).
Proof.
  split; (split; [reflexivity|]).
  - exact (proj1 (C6_error_kinds_by_mode cpython {| name := u "absent" |}
                    (fresh_world scenario_context (PBool true)))
                 (u "absent") eq_refl).
  - exact (proj2 (C6_error_kinds_by_mode cpython {| name := u "absent" |}
                    (fresh_world scenario_context (PBool false)))
                 (u "secret not found on the server") eq_refl).
Defined.

Lemma building_flow_with_secrets (w : world) (secrets : pyval) :
  building_flow (with_context (context w ++ [(u "secrets", secrets)]) w)
  = building_flow w.
Proof.
  unfold building_flow, context_value, with_context. simpl context.
  rewrite dict_lookup_app_fresh; [reflexivity|].
  intros E. apply (f_equal (@List.length N)) in E. discriminate E.
Qed.

(** C7: in local mode, once the guard has passed, a context with no
    local secret mapping makes [get] raise the not-found error for every
    name, which is what it does when the context holds an empty mapping. *)
Theorem C7_absent_mapping_is_empty (lim : limits) (self : Secret)
        (w : world) :
  building_flow w = false ->
  use_local_secrets w = PBool true ->
  dict_lookup (context w) (u "secrets") = None ->
  fst (get lim self w) = inr (NotFound (name self))
  /\ fst (get lim self w)
     = fst (get lim self
              (with_context (context w ++ [(u "secrets", PDict [])]) w)).
Proof.
  intros Hb Hf Hs.
  assert (Hl : local_mode w = true) by (unfold local_mode; now rewrite Hf).
  assert (E : fst (get lim self w) = inr (NotFound (name self))).
  { rewrite (get_local lim self w Hb Hl). unfold local_secrets, context_value.
    now rewrite Hs. }
  split; [exact E|]. rewrite E.
  set (w' := with_context (context w ++ [(u "secrets", PDict [])]) w).
  assert (Hb' : building_flow w' = false)
    by (subst w'; now rewrite building_flow_with_secrets).
  assert (Hl' : local_mode w' = true) by exact Hl.
  rewrite (get_local lim self w' Hb' Hl').
  unfold local_secrets, context_value. subst w'. simpl context.
  assert (Hk : dict_lookup (context w ++ [(u "secrets", PDict [])])
                           (u "secrets") = Some (PDict [])).
  { clear -Hs. induction (context w) as [|[k v] c IH]; [reflexivity|].
    simpl in *. destruct (str_eqb k (u "secrets")); [discriminate|].
    now apply IH. }
  now rewrite Hk.
Qed.

Lemma C7_witness :
  dict_lookup (context (fresh_world [] (PBool true))) (u "secrets") = None
  /\ fst (get cpython {| name := u "db_pw" |} (fresh_world [] (PBool true)))
     = inr (NotFound (u "db_pw")).
Proof.
  split; [reflexivity|].
  exact (proj1 (C7_absent_mapping_is_empty cpython {| name := u "db_pw" |}
                  (fresh_world [] (PBool true)) eq_refl eq_refl eq_refl)).
Defined.

(** C8: whatever the name, the mode and the outcome, [get] leaves the
    context (the local mapping with it), the flag and the remote service
    as they were. *)
Theorem C8_get_reads_only (lim : limits) (self : Secret) (w : world) :
  context (snd (get lim self w)) = context w
  /\ use_local_secrets (snd (get lim self w)) = use_local_secrets w
  /\ secret_service (snd (get lim self w)) = secret_service w.
Proof.
  destruct (building_flow w) eqn:Hb.
  - rewrite (get_building lim self w Hb). repeat split.
  - destruct (local_mode w) eqn:Hl.
    + rewrite (get_local lim self w Hb Hl). repeat split.
    + rewrite (get_remote lim self w Hb Hl). repeat split.
Qed.

(** C9, as the code has it: in local mode, once the guard has passed, a
    stored value that is neither [str], [bytes] nor [bytearray] (a
    number, a list, a dictionary) is returned as it is. *)
Theorem C9_untyped_values_pass_through (lim : limits) (self : Secret)
        (w : world) (d : pydict) (raw : pyval) :
  building_flow w = false ->
  use_local_secrets w = PBool true ->
  local_secrets w = PDict d ->
  dict_lookup d (name self) = Some raw ->
  loads_accepts raw = false ->
  fst (get lim self w) = inl raw.
Proof.
  intros Hb Hf Hs Hn Ha.
  assert (Hl : local_mode w = true) by (unfold local_mode; now rewrite Hf).
  rewrite (get_local lim self w Hb Hl), Hs. simpl. rewrite Hn.
  destruct raw; try reflexivity; discriminate Ha.
Qed.

Lemma C9_witness :
  loads_accepts (PInt 3) = false
  /\ fst (get cpython {| name := u "retries" |}
              (fresh_world scenario_context (PBool true)))
     = inl (PInt 3).
Proof.
  split; [reflexivity|].
  exact (C9_untyped_values_pass_through cpython {| name := u "retries" |}
           (fresh_world scenario_context (PBool true)) scenario_secrets
           (PInt 3) eq_refl eq_refl eq_refl eq_refl eq_refl).
Defined.

(** C9 as stated fails for bytes: the stored bytes [42] are decoded by
    [json.loads], and [get] returns the integer 42, not the bytes. *)
Lemma C9_counterexample :
  dict_lookup scenario_secrets (u "port") = Some (PBytes [x34; x32])
  /\ fst (get cpython {| name := u "port" |}
              (fresh_world scenario_context (PBool true)))
     = inl (PInt 42)
  /\ fst (get cpython {| name := u "port" |}
              (fresh_world scenario_context (PBool true)))
     <> inl (PBytes [x34; x32]).
Proof. repeat split; try reflexivity. discriminate. Qed.

(** C10: [get] raises the error of the guard exactly when the [flow]
    entry of the context is an instance of Flow; with no such entry, or
    with any other value there, the guard passes and the flag is read
    next. *)
Theorem C10_guard_iff_flow_instance (lim : limits) (self : Secret)
        (w : world) :
  (fst (get lim self w) = inr ContextViolation <-> building_flow w = true)
  /\ (dict_lookup (context w) (u "flow") = None -> building_flow w = false)
  /\ (building_flow w = false ->
      exists rest,
        trace (snd (get lim self w))
        = trace w ++ ContextGet (u "flow") :: ConfigRead :: rest).
Proof.
  split; [|split].
  - split.
    + destruct (building_flow w) eqn:Hb; [reflexivity|].
      destruct (local_mode w) eqn:Hl.
      * rewrite (get_local lim self w Hb Hl). cbn [fst]. unfold local_result.
        destruct (local_secrets w); try discriminate.
        destruct (dict_lookup items (name self)) as [raw|].
        -- destruct (Json.loads lim raw) as [v|e] eqn:E; [discriminate|].
           destruct (loads_errors lim raw e E)
             as [-> | [-> | [-> | [-> | (n & ->)]]]];
             [discriminate|discriminate|discriminate|discriminate|].
           intros H. exfalso.
           apply (proj1 (digits_message_differs lim n)).
           unfold ContextViolation in H. congruence.
        -- intros E. exfalso. apply (messages_differ (name self)).
           unfold ContextViolation, NotFound in E. congruence.
      * rewrite (get_remote lim self w Hb Hl). cbn [fst].
        unfold remote_result.
        destruct (secret_service w (name self)) as [v|[msg|cls msg]];
          discriminate.
    + intros Hb. now rewrite (get_building lim self w Hb).
  - unfold building_flow, context_value. now intros ->.
  - intros Hb. destruct (local_mode w) eqn:Hl.
    + rewrite (get_local lim self w Hb Hl).
      exists [ContextGet (u "secrets"); Subscript (name self)].
      simpl. now rewrite <- !app_assoc.
    + rewrite (get_remote lim self w Hb Hl).
      exists [ClientQuery (name self)].
      simpl. now rewrite <- !app_assoc.
Qed.

(* ================================================================= *)
(** ** Further properties of [Secret.get] *)

Lemma local_lookups_app (tr tr' : list event) :
  local_lookups (tr ++ tr') = local_lookups tr ++ local_lookups tr'.
Proof.
  induction tr as [|e tr IH]; [reflexivity|].
  destruct e; simpl; now rewrite IH.
Qed.

Lemma is_True_spec (flag : pyval) : is_True flag = true <-> flag = PBool true.
Proof.
  split; [|now intros ->].
  destruct flag as [ |[|]| | | | | | | | | ]; simpl; congruence.
Qed.

(** X1: the flag is compared with [is True]: with any other flag, a
    truthy one such as [1] included, a call that passes the guard takes
    the remote branch; it asks the client once and does not look at the
    local mapping, whatever that holds. *)
Theorem X1_only_True_selects_local (lim : limits) (self : Secret)
        (w : world) :
  building_flow w = false ->
  use_local_secrets w <> PBool true ->
  fst (get lim self w) = remote_result w (name self)
  /\ local_lookups (trace (snd (get lim self w))) = local_lookups (trace w)
  /\ client_queries (trace (snd (get lim self w)))
     = client_queries (trace w) ++ [name self].
Proof.
  intros Hb Hf.
  assert (Hl : local_mode w = false).
  { unfold local_mode. destruct (is_True (use_local_secrets w)) eqn:E;
      [|reflexivity]. apply is_True_spec in E. contradiction. }
  rewrite (get_remote lim self w Hb Hl). split; [reflexivity|].
  simpl. rewrite <- !app_assoc, local_lookups_app, client_queries_app.
  simpl. now rewrite app_nil_r.
Qed.

Lemma X1_witness :
  dict_lookup scenario_secrets (u "flag") = Some (PStr (u "true"))
  /\ fst (get cpython {| name := u "flag" |}
              (fresh_world scenario_context (PInt 1)))
     = inr (ClientError (u "secret not found on the server")).
Proof.
  split; [reflexivity|].
  assert (Hf : use_local_secrets (fresh_world scenario_context (PInt 1))
               <> PBool true) by discriminate.
  exact (proj1 (X1_only_True_selects_local cpython {| name := u "flag" |}
                  (fresh_world scenario_context (PInt 1)) eq_refl Hf)).
Defined.

(** X2: local mode works without the remote service: a call that passes
    the guard looks the name up once in the local mapping, asks the
    client nothing, and its outcome is the same whatever the service
    would have answered. *)
Theorem X2_local_mode_is_offline (lim : limits) (self : Secret) (w : world)
        (service : pystr -> pyval + client_failure) :
  building_flow w = false ->
  local_mode w = true ->
  client_queries (trace (snd (get lim self w))) = client_queries (trace w)
  /\ local_lookups (trace (snd (get lim self w)))
     = local_lookups (trace w) ++ [name self]
  /\ fst (get lim self
              (World (context w) (use_local_secrets w) service (trace w)))
     = fst (get lim self w).
Proof.
  intros Hb Hl. rewrite (get_local lim self w Hb Hl).
  set (w' := World (context w) (use_local_secrets w) service (trace w)).
  rewrite (get_local lim self w' Hb Hl). repeat split.
  - simpl. rewrite <- !app_assoc, client_queries_app. simpl.
    now rewrite app_nil_r.
  - simpl. rewrite <- !app_assoc, local_lookups_app. reflexivity.
Qed.

Lemma X2_witness :
  client_queries
    (trace (snd (get cpython {| name := u "flag" |}
                     (fresh_world scenario_context (PBool true))))) = []
  /\ fst (get cpython {| name := u "flag" |}
              (World scenario_context (PBool true) (text_service (u "no"))
                     []))
     = inl (PBool true).
Proof.
  destruct (X2_local_mode_is_offline cpython {| name := u "flag" |}
              (fresh_world scenario_context (PBool true))
              (text_service (u "no")) eq_refl eq_refl) as (Hq & _ & Hs).
  split; [exact Hq|]. exact (eq_trans Hs eq_refl).
Defined.

(** X3: remote mode applies no JSON decoding: when the client answers,
    [get] returns the normalised payload, and a payload that is neither
    a sequence nor a mapping, a text that reads as JSON included, comes
    back as it is. *)
Theorem X3_remote_payload_not_decoded (lim : limits) (self : Secret)
        (w : world) (v : pyval) :
  building_flow w = false ->
  local_mode w = false ->
  secret_service w (name self) = inl v ->
  fst (get lim self w) = inl (as_nested_dict v)
  /\ (is_scalar_payload v = true -> fst (get lim self w) = inl v).
Proof.
  intros Hb Hl Hs. rewrite (get_remote lim self w Hb Hl).
  unfold remote_result. simpl. rewrite Hs. split; [reflexivity|].
  destruct v; simpl; try reflexivity; discriminate.
Qed.

Lemma X3_witness :
  fst (get cpython {| name := u "port" |}
           (World [] (PBool false) (text_service (u "42")) []))
  = inl (PStr (u "42")).
Proof.
  exact (proj2 (X3_remote_payload_not_decoded cpython {| name := u "port" |}
                  (World [] (PBool false) (text_service (u "42")) [])
                  (PStr (u "42")) eq_refl eq_refl eq_refl) eq_refl).
Defined.

(** X4: only [KeyError] is turned into the not-found error: in local
    mode, once the guard has passed, a [secrets] entry of the context
    that is not a mapping ([None], a list, a text) makes [get] raise
    [TypeError] for every name. *)
Theorem X4_secrets_not_a_mapping (lim : limits) (self : Secret) (w : world)
        (s : pyval) :
  building_flow w = false ->
  local_mode w = true ->
  dict_lookup (context w) (u "secrets") = Some s ->
  is_dict s = false ->
  fst (get lim self w) = inr TypeError.
Proof.
  intros Hb Hl Hs Hd. rewrite (get_local lim self w Hb Hl).
  unfold local_secrets, context_value. rewrite Hs.
  destruct s; try reflexivity; discriminate.
Qed.

Lemma X4_witness :
  fst (get cpython {| name := u "db_pw" |}
           (fresh_world [(u "secrets", PNone)] (PBool true)))
  = inr TypeError.
Proof.
  exact (X4_secrets_not_a_mapping cpython {| name := u "db_pw" |}
           (fresh_world [(u "secrets", PNone)] (PBool true)) PNone
           eq_refl eq_refl eq_refl eq_refl).
Defined.

Lemma loads_scanner_error (lim : limits) (raw : pyval) (e : pyexn) :
  Json.loads lim raw = inr e ->
  e = RecursionError \/ (exists n, e = ValueError (digits_message lim n)) ->
  loads_accepts raw = true.
Proof.
  unfold Json.loads.
  destruct raw; try reflexivity;
    intros [= <-] [H|(n & H)]; discriminate H.
Qed.

(** X5: the exceptions of [get] and where each comes from: the guard,
    the local mapping, the decoder with the limits of the interpreter,
    or the client.  A [KeyError] and a [JSONDecodeError] of the local
    path never leave [get]. *)
Theorem X5_exceptions_of_get (lim : limits) (self : Secret) (w : world)
        (e : pyexn) :
  fst (get lim self w) = inr e ->
  (e = ContextViolation /\ building_flow w = true)
  \/ (e = NotFound (name self) /\ local_mode w = true)
  \/ (e = TypeError /\ local_mode w = true
      /\ is_dict (local_secrets w) = false)
  \/ (e = UnicodeDecodeError /\ local_mode w = true
      /\ exists d b,
           local_secrets w = PDict d
           /\ (dict_lookup d (name self) = Some (PBytes b)
               \/ dict_lookup d (name self) = Some (PByteArray b)))
  \/ ((e = RecursionError
       \/ exists n, e = ValueError (digits_message lim n))
      /\ local_mode w = true
      /\ exists d raw,
           local_secrets w = PDict d
           /\ dict_lookup d (name self) = Some raw
           /\ loads_accepts raw = true
           /\ Json.loads lim raw = inr e)
  \/ (exists f, e = client_exn f /\ local_mode w = false
                /\ secret_service w (name self) = inr f).
Proof.
  destruct (building_flow w) eqn:Hb.
  { rewrite (get_building lim self w Hb). intros [= <-]. now left. }
  destruct (local_mode w) eqn:Hl.
  - rewrite (get_local lim self w Hb Hl). cbn [fst]. unfold local_result.
    destruct (local_secrets w) as [ | | | | | | | |d| | ] eqn:Hs;
      try (intros [= <-]; right; right; left; repeat split; reflexivity).
    destruct (dict_lookup d (name self)) as [raw|] eqn:Hn.
    + destruct (Json.loads lim raw) as [v|e'] eqn:E; [discriminate|].
      destruct (loads_errors lim raw e' E)
        as [-> | [-> | [-> | [-> | (n & ->)]]]]; try discriminate.
      * intros [= <-]. right; right; right; left.
        destruct (loads_unicode_error lim raw E) as (b & [-> | ->]);
          repeat split; exists d, b; split; auto.
      * intros [= <-]. right; right; right; right; left.
        split; [now left|]. split; [reflexivity|].
        exists d, raw. repeat split; try assumption.
        apply (loads_scanner_error lim raw RecursionError E). now left.
      * intros [= <-]. right; right; right; right; left.
        split; [right; now exists n|]. split; [reflexivity|].
        exists d, raw. repeat split; try assumption.
        apply (loads_scanner_error lim raw _ E). right. now exists n.
    + intros [= <-]. right; left. now split.
  - rewrite (get_remote lim self w Hb Hl). cbn [fst]. unfold remote_result.
    destruct (secret_service w (name self)) as [v|f] eqn:Hs;
      [discriminate|].
    intros [= <-]. right; right; right; right; right.
    exists f. now repeat split.
Qed.

Lemma X5_witness :
  fst (get cpython {| name := u "blob" |}
           (fresh_world scenario_context (PBool true)))
  = inr UnicodeDecodeError
  /\ local_mode (fresh_world scenario_context (PBool true)) = true.
Proof.
  split; [reflexivity|].
  destruct (X5_exceptions_of_get cpython {| name := u "blob" |}
              (fresh_world scenario_context (PBool true))
              UnicodeDecodeError eq_refl)
    as [[H _]|[[H _]|[[H _]|[[_ [Hl _]]|[[[H|[n H]] _]|[f [_ [H _]]]]]]]];
    try discriminate H.
  exact Hl.
Defined.

(** X6: a stored text within the limits never makes [get] fail: in
    local mode, once the guard has passed, a text of at most 640
    characters, in an interpreter whose recursion limit leaves the
    scanner the length of the text and the room of an error and of a
    call, resolves to what [json.loads] reads in it, and to itself when
    [json.loads] rejects it. *)
Theorem X6_text_secrets_never_fail (lim : limits) (self : Secret)
        (w : world) (d : pydict) (s : pystr) :
  building_flow w = false ->
  local_mode w = true ->
  local_secrets w = PDict d ->
  dict_lookup d (name self) = Some (PStr s) ->
  (N.of_nat (List.length s) <= 640)%N ->
  List.length s + error_room lim <= max_depth lim ->
  List.length s + call_room lim <= max_depth lim ->
  (exists v, Json.loads lim (PStr s) = inl v /\ fst (get lim self w) = inl v)
  \/ (Json.loads lim (PStr s) = inr JSONDecodeError
      /\ fst (get lim self w) = inl (PStr s)).
Proof.
  intros Hb Hl Hs Hn Hlen He Hc. rewrite (get_local lim self w Hb Hl), Hs.
  cbn [fst]. unfold local_result. rewrite Hn.
  destruct (loads_short_text lim s Hlen He Hc) as [(v & E)|E]; rewrite E.
  - left. exists v. now split.
  - right. now split.
Qed.

Lemma X6_witness :
  fst (get cpython {| name := u "raw" |}
           (fresh_world scenario_context (PBool true)))
  = inl (PStr (u "not-json{")).
Proof.
  assert (Hlen : (N.of_nat (List.length (u "not-json{")) <= 640)%N)
    by (vm_compute; discriminate).
  assert (He : List.length (u "not-json{") + error_room cpython
               <= max_depth cpython) by (simpl; lia).
  assert (Hc : List.length (u "not-json{") + call_room cpython
               <= max_depth cpython) by (simpl; lia).
  destruct (X6_text_secrets_never_fail cpython {| name := u "raw" |}
              (fresh_world scenario_context (PBool true)) scenario_secrets
              (u "not-json{") eq_refl eq_refl eq_refl eq_refl Hlen He Hc)
    as [(v & H & _)|(_ & H)].
  - discriminate H.
  - exact H.
Defined.

(** X7: the two [ValueError]s of [get] can be told apart: the message
    of the not-found error is not the message of the guard, and it
    determines the name it was made from. *)
Theorem X7_value_errors_differ :
  (forall n, NotFound n <> ContextViolation)
  /\ (forall n n', NotFound n = NotFound n' -> n = n').
Proof.
  split.
  - intros n E. apply (messages_differ n).
    unfold ContextViolation, NotFound in E. congruence.
  - intros n n' E. unfold NotFound, not_found_message in E.
    injection E as E. now apply app_inv_tail in E.
Qed.

Lemma skipn_length_app (A : Type) (l l' : list A) :
  skipn (List.length l) (l ++ l') = l'.
Proof. induction l as [|x l IH]; [reflexivity|exact IH]. Qed.

(** The outcome of a call depends on the context, the flag and the
    service, not on what happened before. *)
Lemma get_same_backends (lim : limits) (self : Secret) (w w' : world) :
  context w' = context w ->
  use_local_secrets w' = use_local_secrets w ->
  secret_service w' = secret_service w ->
  fst (get lim self w') = fst (get lim self w)
  /\ accesses lim self w' = accesses lim self w.
Proof.
  intros Hc Hf Hs. unfold accesses.
  assert (Hb : building_flow w' = building_flow w)
    by (unfold building_flow, context_value; now rewrite Hc).
  assert (Hl : local_mode w' = local_mode w)
    by (unfold local_mode; now rewrite Hf).
  destruct (building_flow w) eqn:Eb.
  - rewrite (get_building lim self w Eb), (get_building lim self w' Hb).
    simpl. rewrite !skipn_length_app. now split.
  - destruct (local_mode w) eqn:El.
    + rewrite (get_local lim self w Eb El), (get_local lim self w' Hb Hl).
      simpl. rewrite <- !app_assoc, !skipn_length_app.
      unfold local_secrets, context_value. rewrite Hc. now split.
    + rewrite (get_remote lim self w Eb El), (get_remote lim self w' Hb Hl).
      simpl. rewrite <- !app_assoc, !skipn_length_app.
      unfold remote_result. rewrite Hs. now split.
Qed.

Lemma get_frame (lim : limits) (self : Secret) (w : world) :
  context (snd (get lim self w)) = context w
  /\ use_local_secrets (snd (get lim self w)) = use_local_secrets w
  /\ secret_service (snd (get lim self w)) = secret_service w
  /\ trace (snd (get lim self w)) = trace w ++ accesses lim self w.
Proof.
  unfold accesses. destruct (building_flow w) eqn:Hb.
  - rewrite (get_building lim self w Hb). simpl.
    rewrite skipn_length_app. repeat split.
  - destruct (local_mode w) eqn:Hl.
    + rewrite (get_local lim self w Hb Hl). simpl.
      rewrite <- !app_assoc, skipn_length_app. repeat split.
    + rewrite (get_remote lim self w Hb Hl). simpl.
      rewrite <- !app_assoc, skipn_length_app. repeat split.
Qed.

(** X8: nothing is cached: a second call right after a first one has
    the same outcome and goes through the same accesses again, so that
    the trace holds them twice; in remote mode the client is asked a
    second time. *)
Theorem X8_no_caching (lim : limits) (self : Secret) (w : world) :
  fst (get lim self (snd (get lim self w))) = fst (get lim self w)
  /\ trace (snd (get lim self (snd (get lim self w))))
     = trace w ++ accesses lim self w ++ accesses lim self w
  /\ (building_flow w = false -> local_mode w = false ->
      client_queries (trace (snd (get lim self (snd (get lim self w)))))
      = client_queries (trace w) ++ [name self; name self]).
Proof.
  destruct (get_frame lim self w) as (Hc & Hf & Hs & Ht).
  destruct (get_same_backends lim self w (snd (get lim self w)) Hc Hf Hs)
    as (Hr & Ha).
  destruct (get_frame lim self (snd (get lim self w))) as (_ & _ & _ & Ht2).
  assert (T : trace (snd (get lim self (snd (get lim self w))))
              = trace w ++ accesses lim self w ++ accesses lim self w).
  { rewrite Ht2, Ha, Ht. now rewrite <- app_assoc. }
  split; [exact Hr|]. split; [exact T|].
  intros Hb Hl. rewrite T. unfold accesses.
  rewrite (get_remote lim self w Hb Hl). simpl.
  rewrite <- !app_assoc, skipn_length_app, !client_queries_app.
  reflexivity.
Qed.

(* ================================================================= *)
(** ** Byte strings that hold JSON *)

Section Printable.

Local Open Scope N_scope.

Lemma is_printable_range (c : N) : is_printable c = true <-> 32 <= c <= 126.
Proof.
  unfold is_printable. rewrite andb_true_iff, !N.leb_le. reflexivity.
Qed.

Lemma hexdigit_printable (d : N) :
  d < 16 -> is_printable (hexdigit d) = true.
Proof.
  intros H.
  assert (C : In d [0; 1; 2; 3; 4; 5; 6; 7; 8; 9; 10; 11; 12; 13; 14; 15])
    by (simpl; lia).
  simpl in C.
  repeat (destruct C as [<-|C]; [reflexivity|]). contradiction.
Qed.

Lemma escape_u_printable (n : N) :
  n < 65536 -> forallb is_printable (escape_u n) = true.
Proof.
  intros H. unfold escape_u. cbn [forallb].
  rewrite !hexdigit_printable
    by (zify; Z.to_euclidean_division_equations; lia).
  reflexivity.
Qed.

Lemma escape_char_printable (c : N) :
  forallb is_printable (escape_char c) = true.
Proof.
  unfold escape_char.
  repeat match goal with
         | |- context [if (c =? ?k) then _ else _] =>
             destruct (c =? k); [reflexivity|]
         end.
  destruct ((32 <=? c) && (c <=? 126)) eqn:E.
  - cbn [forallb]. unfold is_printable. now rewrite E.
  - destruct (N.ltb_spec c 65536) as [Hc|Hc].
    + now apply escape_u_printable.
    + rewrite forallb_app, !escape_u_printable; [reflexivity| |];
        zify; Z.to_euclidean_division_equations; lia.
Qed.

Lemma encode_string_printable (s : pystr) :
  forallb is_printable (encode_string s) = true.
Proof.
  unfold encode_string. cbn [forallb]. rewrite forallb_app.
  replace (forallb is_printable (flat_map escape_char s)) with true.
  - reflexivity.
  - symmetry. induction s as [|c s IH]; [reflexivity|].
    simpl flat_map. now rewrite forallb_app, escape_char_printable, IH.
Qed.

Lemma digits_printable (ds : pystr) :
  forallb is_digit ds = true -> forallb is_printable ds = true.
Proof.
  induction ds as [|d ds IH]; [reflexivity|]. cbn [forallb].
  intros H. apply andb_true_iff in H as [Hd Hds].
  rewrite (IH Hds), andb_true_r. apply is_digit_range in Hd.
  apply is_printable_range. lia.
Qed.

Lemma str_of_N_printable (n : N) : forallb is_printable (str_of_N n) = true.
Proof. apply digits_printable. exact (proj1 (str_of_N_spec n)). Qed.

Lemma str_of_Z_printable (z : Z) :
  forallb is_printable (str_of_Z z) = true.
Proof.
  destruct z as [|p|p].
  - reflexivity.
  - apply str_of_N_printable.
  - change (str_of_Z (Zneg p)) with (45 :: str_of_N (Npos p)).
    cbn [forallb]. now rewrite str_of_N_printable.
Qed.

Lemma repeat_printable (c : N) (n : nat) :
  is_printable c = true -> forallb is_printable (repeat c n) = true.
Proof.
  intros H. induction n as [|n IH]; [reflexivity|].
  cbn [repeat forallb]. now rewrite H, IH.
Qed.

Lemma firstn_skipn_printable (n : nat) (s : pystr) :
  forallb is_printable s = true ->
  forallb is_printable (firstn n s) = true
  /\ forallb is_printable (skipn n s) = true.
Proof.
  intros H. rewrite <- (firstn_skipn n s), forallb_app in H.
  now apply andb_true_iff in H.
Qed.

Lemma format_repr_printable (ds : pystr) (decpt : Z) :
  forallb is_printable ds = true ->
  forallb is_printable (format_repr ds decpt) = true.
Proof.
  intros H. unfold format_repr.
  destruct ((decpt <=? -4)%Z || (16 <? decpt)%Z).
  - rewrite !forallb_app, str_of_N_printable, andb_true_r.
    apply andb_true_iff. split; [|apply andb_true_iff; split].
    + destruct ds as [|d [|d' r]]; exact H.
    + now destruct (decpt - 1 <? 0)%Z.
    + now destruct (Z.abs (decpt - 1) <? 10)%Z.
  - destruct (decpt <=? 0)%Z.
    + change (u "0.") with [48; 46]. cbn [app forallb].
      rewrite forallb_app, H, repeat_printable; reflexivity.
    + destruct (Z.of_nat (List.length ds) <=? decpt)%Z.
      * rewrite !forallb_app, H, repeat_printable; reflexivity.
      * destruct (firstn_skipn_printable (Z.to_nat decpt) ds H) as [H1 H2].
        rewrite forallb_app, H1. cbn [app forallb]. now rewrite H2.
Qed.

Lemma float_repr_printable (x : spec_float) :
  forallb is_printable (float_repr x) = true.
Proof.
  destruct x as [s|s| |s m e]; try (destruct s; reflexivity);
    try reflexivity.
  unfold float_repr.
  destruct (shortest 16 (S754_finite false m e) (fraction m e)
                     (decimal_point (fraction m e)) 1) as [c e10].
  destruct (strip_zeros 17 c e10) as [c' e10'].
  rewrite forallb_app, format_repr_printable by apply str_of_N_printable.
  now destruct s.
Qed.

Lemma floatstr_printable (x : spec_float) :
  forallb is_printable (floatstr x) = true.
Proof.
  destruct x as [s|s| |s m e]; try (destruct s; reflexivity);
    try reflexivity.
  apply float_repr_printable.
Qed.

Lemma join_items_printable (A : Type) (render : A -> option pystr)
      (close : N) (l : list A) :
  is_printable close = true ->
  Forall (fun x => forall a, render x = Some a ->
                             forallb is_printable a = true) l ->
  forall body, join_items render close l = Some body ->
               forallb is_printable body = true.
Proof.
  intros Hc. induction 1 as [|x l Hx Hl IH]; intros body.
  - intros [= <-]. cbn [forallb]. now rewrite Hc.
  - cbn [join_items]. destruct (render x) as [a|] eqn:Ea; [|discriminate].
    destruct (join_items render close l) as [b|] eqn:Eb; [|discriminate].
    intros [= <-]. rewrite forallb_app, (Hx a eq_refl).
    destruct l; [now apply IH|].
    cbn [andb]. change (u ", " ++ b) with (44 :: 32 :: b).
    cbn [forallb]. now rewrite (IH b eq_refl).
Qed.

(** [json.dumps] writes printable ASCII only. *)
Lemma dumps_printable (lim : limits) (v : pyval) (text : pystr) :
  dumps lim v = Some text -> forallb is_printable text = true.
Proof.
  revert text.
  induction v as [ |b|z|x|s|b|b|l IHl|d IHd|n|c] using pyval_nested_ind;
    intros text; try discriminate.
  - now intros [= <-].
  - destruct b; now intros [= <-].
  - cbn [dumps]. destruct (too_many_digits lim (int_digits z));
      [discriminate|].
    intros [= <-]. apply str_of_Z_printable.
  - intros [= <-]. apply floatstr_printable.
  - intros [= <-]. apply encode_string_printable.
  - change (dumps lim (PList l))
      with (option_map (cons 91) (join_items (dumps lim) 93 l)).
    destruct (join_items (dumps lim) 93 l) as [body|] eqn:E; [|discriminate].
    intros [= <-]. cbn [forallb].
    now rewrite (join_items_printable pyval (dumps lim) 93 l eq_refl IHl
                   body E).
  - change (dumps lim (PDict d))
      with (option_map (cons 123) (join_items (render_pair lim) 125 d)).
    destruct (join_items (render_pair lim) 125 d) as [body|] eqn:E;
      [|discriminate].
    intros [= <-]. cbn [forallb].
    rewrite (join_items_printable (pystr * pyval)%type (render_pair lim)
               125 d eq_refl) with (body := body);
      [reflexivity| |exact E].
    clear E body.
    induction IHd as [|[k x] d Hx Hd IH]; constructor; [|exact IH].
    intros a. unfold render_pair. cbn [fst snd] in *.
    destruct (dumps lim x) as [t|] eqn:Ex; [|discriminate].
    intros [= <-].
    change (forallb is_printable (encode_string k ++ 58 :: 32 :: t) = true).
    rewrite forallb_app, encode_string_printable.
    cbn [forallb andb]. now rewrite (Hx t eq_refl).
Qed.

Lemma utf8_decode_ascii (text : pystr) :
  forallb is_printable text = true -> Codec.utf8_decode text = Some text.
Proof.
  induction text as [|c text IH]; [reflexivity|]. cbn [forallb].
  intros H. apply andb_true_iff in H as [Hc Ht].
  apply is_printable_range in Hc. cbn [Codec.utf8_decode].
  replace (c <? 128) with true by (symmetry; apply N.ltb_lt; lia).
  now rewrite (IH Ht).
Qed.

Lemma startswith_other_head (p : N) (prefix : list N) (c : N)
      (t : list N) :
  p <> c -> Codec.startswith (p :: prefix) (c :: t) = false.
Proof.
  intros H. cbn [Codec.startswith]. apply N.eqb_neq in H. now rewrite H.
Qed.

Lemma detect_encoding_ascii (text : pystr) :
  forallb is_printable text = true -> Codec.detect_encoding text = Codec.UTF8.
Proof.
  intros H. unfold Codec.detect_encoding.
  destruct text as [|c0 text]; [reflexivity|].
  cbn [forallb] in H. apply andb_true_iff in H as [H0 H].
  apply is_printable_range in H0.
  rewrite !startswith_other_head by lia. cbn [orb].
  assert (Z0 : Codec.is_zero c0 = false) by (apply N.eqb_neq; lia).
  destruct text as [|c1 text]; [reflexivity|].
  cbn [forallb] in H. apply andb_true_iff in H as [H1 H].
  apply is_printable_range in H1.
  assert (Z1 : Codec.is_zero c1 = false) by (apply N.eqb_neq; lia).
  destruct text as [|c2 [|c3 text]]; rewrite ?Z0, ?Z1; reflexivity.
Qed.

(** Bytes that are the characters of a printable ASCII text decode to
    that text. *)
Lemma bytes_decode_ascii (b : list byte) (text : pystr) :
  List.map Byte.to_N b = text ->
  forallb is_printable text = true ->
  Codec.bytes_decode b = Some text.
Proof.
  intros Hb Ht. unfold Codec.bytes_decode. cbv zeta. rewrite Hb.
  rewrite (detect_encoding_ascii text Ht). now apply utf8_decode_ascii.
Qed.

End Printable.

(** X9: a stored [bytes] or [bytearray] is decoded like a text: in
    local mode, once the guard has passed, bytes that spell the JSON
    encoding of a value of the JSON data model resolve to that value,
    not to the bytes, provided the scanner has the room for the nesting
    of the value and every finite float reads back from its [repr]. *)
Theorem X9_bytes_secrets_are_decoded (lim : limits) (self : Secret)
        (w : world) (d : pydict) (v : pyval) (text : pystr)
        (b : list byte) :
  building_flow w = false ->
  local_mode w = true ->
  local_secrets w = PDict d ->
  json_value v = true ->
  floats_read_back v = true ->
  room lim v <= max_depth lim ->
  dumps lim v = Some text ->
  List.map Byte.to_N b = text ->
  dict_lookup d (name self) = Some (PBytes b)
  \/ dict_lookup d (name self) = Some (PByteArray b) ->
  fst (get lim self w) = inl v.
Proof.
  intros Hb Hl Hs Hj Hr Hm Hd Hbytes Hn.
  rewrite (get_local lim self w Hb Hl), Hs. cbn [fst]. unfold local_result.
  pose proof (loads_dumps lim v text Hj Hr Hm Hd) as Hloads.
  pose proof (bytes_decode_ascii b text Hbytes
                (dumps_printable lim v text Hd)) as Hdec.
  assert (Hrun : Json.loads lim (PBytes b) = inl v
                 /\ Json.loads lim (PByteArray b) = inl v).
  { unfold Json.loads in *. rewrite Hdec.
    destruct (starts_with_bom text); [discriminate Hloads|].
    now split. }
  destruct Hrun as [H1 H2].
  destruct Hn as [Hn|Hn]; rewrite Hn; [now rewrite H1|now rewrite H2].
Qed.

Lemma X9_witness :
  fst (get cpython {| name := u "port" |}
           (fresh_world scenario_context (PBool true)))
  = inl (PInt 42).
Proof.
  exact (X9_bytes_secrets_are_decoded cpython {| name := u "port" |}
           (fresh_world scenario_context (PBool true)) scenario_secrets
           (PInt 42) (u "42") [x34; x32]
           eq_refl eq_refl eq_refl eq_refl eq_refl (Nat.le_0_l _)
           eq_refl eq_refl (or_introl eq_refl)).
Defined.

(** X10: [get] reads four things only: the [flow] entry of the
    context, the flag, the entry of its own name in the local mapping
    and what the service answers for its own name.  Two worlds that
    agree on these give the same outcome, whatever else their contexts,
    mappings and services hold. *)
Theorem X10_get_reads_what_it_needs (lim : limits) (self : Secret)
        (w w' : world) (d d' : pydict) :
  building_flow w' = building_flow w ->
  local_mode w' = local_mode w ->
  local_secrets w = PDict d ->
  local_secrets w' = PDict d' ->
  dict_lookup d' (name self) = dict_lookup d (name self) ->
  secret_service w' (name self) = secret_service w (name self) ->
  fst (get lim self w') = fst (get lim self w).
Proof.
  intros Hb Hl Hs Hs' Hn Hq.
  destruct (building_flow w) eqn:Eb.
  - now rewrite (get_building lim self w Eb), (get_building lim self w' Hb).
  - destruct (local_mode w) eqn:El.
    + rewrite (get_local lim self w Eb El), (get_local lim self w' Hb Hl).
      simpl. rewrite Hs, Hs'. simpl. now rewrite Hn.
    + rewrite (get_remote lim self w Eb El), (get_remote lim self w' Hb Hl).
      simpl. unfold remote_result. now rewrite Hq.
Qed.

Lemma X10_witness :
  fst (get cpython {| name := u "flag" |}
           (fresh_world [(u "secrets", PDict [(u "flag", PStr (u "true"))]);
                         (u "owner", PStr (u "ops"))]
                        (PBool true)))
  = fst (get cpython {| name := u "flag" |}
             (fresh_world scenario_context (PBool true))).
Proof.
  exact (X10_get_reads_what_it_needs cpython {| name := u "flag" |}
           (fresh_world scenario_context (PBool true))
           (fresh_world [(u "secrets", PDict [(u "flag", PStr (u "true"))]);
                         (u "owner", PStr (u "ops"))]
                        (PBool true))
           scenario_secrets [(u "flag", PStr (u "true"))]
           eq_refl eq_refl eq_refl eq_refl eq_refl eq_refl).
Defined.

(** X11: the two failures the handler names are caught: in local mode,
    once the guard has passed, when [json.loads] rejects the stored
    value with [JSONDecodeError] (a malformed document) or with
    [TypeError] (a value that is neither [str], [bytes] nor
    [bytearray]), [get] returns the stored value itself and raises
    nothing. *)
Theorem X11_caught_failures_fall_back (lim : limits) (self : Secret)
        (w : world) (d : pydict) (raw : pyval) :
  building_flow w = false ->
  use_local_secrets w = PBool true ->
  local_secrets w = PDict d ->
  dict_lookup d (name self) = Some raw ->
  Json.loads lim raw = inr JSONDecodeError
  \/ Json.loads lim raw = inr TypeError ->
  fst (get lim self w) = inl raw.
Proof.
  intros Hb Hf Hs Hn He.
  assert (Hl : local_mode w = true) by (unfold local_mode; now rewrite Hf).
  rewrite (get_local lim self w Hb Hl), Hs. cbn [fst]. unfold local_result.
  rewrite Hn. now destruct He as [-> | ->].
Qed.

Lemma X11_witness :
  Json.loads cpython (PStr (u "not-json{")) = inr JSONDecodeError
  /\ fst (get cpython {| name := u "raw" |}
              (fresh_world scenario_context (PBool true)))
     = inl (PStr (u "not-json{")).
Proof.
  split; [reflexivity|].
  exact (X11_caught_failures_fall_back cpython {| name := u "raw" |}
           (fresh_world scenario_context (PBool true)) scenario_secrets
           (PStr (u "not-json{")) eq_refl eq_refl eq_refl eq_refl
           (or_introl eq_refl)).
Defined.

(** X12: what a stored text can do: in local mode, once the guard has
    passed, [get] returns what [json.loads] reads in it, or the text
    itself when [json.loads] rejects it with [JSONDecodeError]; it
    raises only what the limits of the interpreter make the decoder
    raise, [RecursionError] or the [ValueError] of an integer with too
    many digits. *)
Theorem X12_text_secrets_outcomes (lim : limits) (self : Secret) (w : world)
        (d : pydict) (s : pystr) :
  building_flow w = false ->
  local_mode w = true ->
  local_secrets w = PDict d ->
  dict_lookup d (name self) = Some (PStr s) ->
  (exists v, Json.loads lim (PStr s) = inl v /\ fst (get lim self w) = inl v)
  \/ (Json.loads lim (PStr s) = inr JSONDecodeError
      /\ fst (get lim self w) = inl (PStr s))
  \/ (exists e,
        Json.loads lim (PStr s) = inr e
        /\ (e = RecursionError
            \/ exists n, e = ValueError (digits_message lim n))
        /\ fst (get lim self w) = inr e).
Proof.
  intros Hb Hl Hs Hn. rewrite (get_local lim self w Hb Hl), Hs.
  cbn [fst]. unfold local_result. rewrite Hn.
  destruct (Json.loads lim (PStr s)) as [v|e] eqn:E.
  - left. exists v. now split.
  - right. destruct (loads_errors lim (PStr s) e E)
      as [-> | [-> | [-> | [-> | (n & ->)]]]].
    + left. now split.
    + unfold Json.loads in E. destruct (starts_with_bom s); [discriminate|].
      destruct (decode_errors lim s _ E) as [H|[H|(n & H)]]; discriminate H.
    + destruct (loads_unicode_error lim (PStr s) E) as (b & [H|H]);
        discriminate H.
    + right. exists RecursionError.
      split; [reflexivity|]. split; [now left|reflexivity].
    + right. exists (ValueError (digits_message lim n)).
      split; [reflexivity|]. split; [right; now exists n|reflexivity].
Qed.

Lemma X12_witness :
  fst (get shallow {| name := u "nested" |}
           (fresh_world nested_context (PBool true)))
  = inr RecursionError.
Proof.
  destruct (X12_text_secrets_outcomes shallow {| name := u "nested" |}
              (fresh_world nested_context (PBool true))
              [(u "nested", PStr (u "[[[1]]]"))] (u "[[[1]]]")
              eq_refl eq_refl eq_refl eq_refl)
    as [(v & H & _)|[(H & _)|(e & H & _ & G)]].
  - discriminate H.
  - discriminate H.
  - change (@inr pyval pyexn RecursionError = inr e) in H.
    injection H as <-. exact G.
Defined.
